(** * The real-time chat relay of Cottage-Dev.net ([app/web/routers/ws.py])

    A shallow embedding of the inbound relay ([writer]) of [chat_ws], of
    the Redis commands it issues and of [verify_turnstile]
    ([app/core/turnstile.py]), followed by the properties of the relay:
    validation, burst counting, strikes, challenge, block, history.

    Conventions.
    - A Python [str] is a [string]; each character stands for one code
      point (the code points below 256 are representable).
    - A Python [int] is a [Z].
    - Redis keeps an integer value and an optional absolute expiry time
      per key.  The server clock is read in whole seconds, once per loop
      iteration; a key whose expiry time has been reached is gone.
    - Calls that can raise (Redis commands, [send_text]) run in a state
      and exception monad; [try ... except Exception: pass] is [swallow]. *)

From Stdlib Require Import ZArith String Ascii List Bool Lia Sorted.
From stdpp Require Import gmap strings pretty.

Local Open Scope string_scope.
Local Open Scope list_scope.
Local Open Scope Z_scope.

(** ** Python values and built-ins used by the relay *)

(** What [json.loads] puts in a payload field.  A float, list or dict is
    seen only through [bool()], [int()] and [str()], so it is kept as
    those three observations. *)
Inductive pyval : Type :=
| PNone
| PBool (b : bool)
| PInt (n : Z)
| PStr (s : string)
| POpaque (truth : bool) (as_int : option Z) (repr : string).

Definition is_empty (s : string) : bool :=
  match s with EmptyString => true | String _ _ => false end.

(** [bool(v)] *)
Definition truthy (v : pyval) : bool :=
  match v with
  | PNone => false
  | PBool b => b
  | PInt n => negb (n =? 0)
  | PStr s => negb (is_empty s)
  | POpaque t _ _ => t
  end.

(** [v or d] *)
Definition py_or (v d : pyval) : pyval := if truthy v then v else d.

(** [str(v)] *)
Definition py_str (v : pyval) : string :=
  match v with
  | PNone => "None"
  | PBool true => "True"
  | PBool false => "False"
  | PInt n => pretty n
  | PStr s => s
  | POpaque _ _ r => r
  end.

(** [c.isspace()] for a code point below 256. *)
Definition isspace (c : ascii) : bool :=
  let n := nat_of_ascii c in
  ((9 <=? n)%nat && (n <=? 13)%nat) || ((28 <=? n)%nat && (n <=? 32)%nat)
  || (n =? 133)%nat || (n =? 160)%nat.

Fixpoint lstrip (s : string) : string :=
  match s with
  | EmptyString => EmptyString
  | String c r => if isspace c then lstrip r else s
  end.

Fixpoint rstrip (s : string) : string :=
  match s with
  | EmptyString => EmptyString
  | String c r =>
      let r' := rstrip r in
      if isspace c && is_empty r' then EmptyString else String c r'
  end.

(** [s.strip()] *)
Definition strip (s : string) : string := rstrip (lstrip s).

(** [len(s)] *)
Definition len (s : string) : Z := Z.of_nat (String.length s).

(** ** Identity, settings, messages *)

(** [app/core/models/user.py], the columns the relay reads. *)
Record User : Type := {
  id : Z;
  email : string;
  name : option string
}.

(** [user.name or user.email] *)
Definition name_or_email (u : User) : string :=
  match name u with
  | Some n => if is_empty n then email u else n
  | None => email u
  end.

(** One accepted socket: the user resolved at connect time and
    [websocket.client.host] when the transport reports a peer. *)
Record Session : Type := {
  user : option User;
  client_host : option string
}.

(** [display_name = (user.name or user.email)[:32] if user else None] *)
Definition display_name (sess : Session) : option string :=
  match user sess with
  | Some u => Some (substring 0 32 (name_or_email u))
  | None => None
  end.

(** [not display_name] *)
Definition no_display_name (sess : Session) : bool :=
  match display_name sess with
  | Some d => is_empty d
  | None => true
  end.

(** [app/core/config.py], the setting the relay depends on. *)
Record Settings : Type := {
  TURNSTILE_SECRET_KEY : option string
}.

Definition secret_configured (cfg : Settings) : bool :=
  match TURNSTILE_SECRET_KEY cfg with
  | Some k => negb (is_empty k)
  | None => false
  end.

(** The [event] dict built before publishing; its serialised form is the
    unit sent on the channel and kept in the history list. *)
Record ChannelMessage : Type := {
  ev_id : string;
  ev_user : option string;
  ev_text : string;
  ev_ts : Z;
  ev_avatar : option string;
  ev_client_id : pyval
}.

(** The error frames the relay sends back to its own client. *)
Inductive Reply : Type :=
| ErrTooLong (client_id : pyval)
| ErrBlocked (error : string) (retry_after : Z) (client_id : pyval)
| ErrChallenge (client_id : pyval).

Definition code (r : Reply) : string :=
  match r with
  | ErrTooLong _ => "too_long"
  | ErrBlocked _ _ _ => "blocked"
  | ErrChallenge _ => "challenge_required"
  end.

Definition CHANNEL_NAME : string := "chat:global".
Definition HISTORY_KEY : string := "chat:global:history".

(** ** Frames and the environment of one loop iteration *)

(** The value [json.loads(text)] returns: a dict, or something without a
    [get] method. *)
Inductive Loaded : Type :=
| LDict (d : gmap string pyval)
| LOther.

(** A text frame together with what [json.loads] makes of it
    ([None]: it raises). *)
Record Frame : Type := {
  raw : string;
  loads : option Loaded
}.

(** The call sites of Redis commands in [writer]. *)
Inductive RedisOp : Type :=
| OpTtlBlock | OpIncrCount | OpExpireCount | OpExistsChallenge
| OpIncrStrikes | OpExpireStrikes | OpSetBlock | OpSetChallenge
| OpDeleteChallenge | OpPublish | OpLpush | OpLtrim.

(** Everything outside the process that one iteration observes. *)
Record Env : Type := {
  now : Z;                      (* Redis server clock, seconds *)
  time_ms : Z;                  (* int(time.time() * 1000) *)
  uuid4 : string;               (* str(uuid4()) *)
  avatar_mtime : option Z;      (* mtime of the avatar file, if it exists *)
  siteverify : bool;            (* the challenge service answers success *)
  redis_fails : RedisOp -> bool;(* the Redis calls that raise *)
  send_fails : bool             (* websocket.send_text raises *)
}.

Definition no_faults : RedisOp -> bool := fun _ => false.

(** ** The world: Redis and the variables of one connection *)

Record World : Type := {
  kv : gmap string (Z * option Z);      (* value and absolute expiry *)
  lists : gmap string (list ChannelMessage);
  channel : list (string * ChannelMessage);  (* published, newest first *)
  outbox : list Reply;                  (* error frames sent, newest first *)
  payload : option Loaded;              (* the local [payload]; None: unbound *)
  raised : list RedisOp                 (* trace of the Redis calls that raised *)
}.

Definition set_kv (f : gmap string (Z * option Z) -> gmap string (Z * option Z))
    (w : World) : World :=
  {| kv := f (kv w); lists := lists w; channel := channel w;
     outbox := outbox w; payload := payload w; raised := raised w |}.

(** The world with the keys replaced by [m]. *)
Definition with_kv (m : gmap string (Z * option Z)) (w : World) : World :=
  set_kv (fun _ => m) w.

Definition set_lists
    (f : gmap string (list ChannelMessage) -> gmap string (list ChannelMessage))
    (w : World) : World :=
  {| kv := kv w; lists := f (lists w); channel := channel w;
     outbox := outbox w; payload := payload w; raised := raised w |}.

Definition add_channel (c : string) (m : ChannelMessage) (w : World) : World :=
  {| kv := kv w; lists := lists w; channel := (c, m) :: channel w;
     outbox := outbox w; payload := payload w; raised := raised w |}.

Definition add_outbox (r : Reply) (w : World) : World :=
  {| kv := kv w; lists := lists w; channel := channel w;
     outbox := r :: outbox w; payload := payload w; raised := raised w |}.

Definition set_payload (p : option Loaded) (w : World) : World :=
  {| kv := kv w; lists := lists w; channel := channel w;
     outbox := outbox w; payload := p; raised := raised w |}.

Definition add_raised (op : RedisOp) (w : World) : World :=
  {| kv := kv w; lists := lists w; channel := channel w;
     outbox := outbox w; payload := payload w; raised := op :: raised w |}.

(** ** State and exception monad *)

Inductive res (A : Type) : Type :=
| Ret (a : A)
| Exc.
Arguments Ret {A} a.
Arguments Exc {A}.

Definition M (A : Type) : Type := World -> res A * World.

Definition ret {A} (a : A) : M A := fun w => (Ret a, w).

Definition raise {A} : M A := fun w => (Exc, w).

Definition bind {A B} (m : M A) (k : A -> M B) : M B :=
  fun w =>
    match m w with
    | (Ret a, w') => k a w'
    | (Exc, w') => (Exc, w')
    end.

Notation "x <- m ;; k" := (bind m (fun x => k))
  (at level 90, m at level 80, right associativity).
Notation "m ;;; k" := (bind m (fun _ => k))
  (at level 90, right associativity).

(** [try: m except Exception: h] *)
Definition try_except {A} (m h : M A) : M A :=
  fun w =>
    match m w with
    | (Ret a, w') => (Ret a, w')
    | (Exc, w') => h w'
    end.

(** [try: m except Exception: pass] *)
Definition swallow (m : M unit) : M unit := try_except m (ret tt).

(** ** Redis commands *)

(** A stored entry is visible while its expiry time is not reached. *)
Definition live (t : Z) (e : Z * option Z) : bool :=
  match snd e with
  | Some x => t <? x
  | None => true
  end.

Definition lookup_live (t : Z) (k : string) (m : gmap string (Z * option Z))
    : option (Z * option Z) :=
  match m !! k with
  | Some e => if live t e then Some e else None
  | None => None
  end.

(** A command issued at call site [op]: it raises when the environment
    says so, leaving Redis as it was. *)
Definition redis_call {A} (env : Env) (op : RedisOp) (m : M A) : M A :=
  fun w => if redis_fails env op then (Exc, add_raised op w) else m w.

(** [TTL key]: -2 without the key, -1 without expiry, else seconds left. *)
Definition redis_ttl (env : Env) (op : RedisOp) (k : string) : M Z :=
  redis_call env op (fun w =>
    match lookup_live (now env) k (kv w) with
    | None => (Ret (-2), w)
    | Some (_, None) => (Ret (-1), w)
    | Some (_, Some x) => (Ret (x - now env), w)
    end).

(** [INCR key]: a missing key counts from 0 and gets no expiry. *)
Definition redis_incr (env : Env) (op : RedisOp) (k : string) : M Z :=
  redis_call env op (fun w =>
    match lookup_live (now env) k (kv w) with
    | None => (Ret 1, set_kv (insert k (1, None)) w)
    | Some (v, x) => (Ret (v + 1), set_kv (insert k (v + 1, x)) w)
    end).

(** [EXPIRE key seconds] *)
Definition redis_expire (env : Env) (op : RedisOp) (k : string) (s : Z) : M Z :=
  redis_call env op (fun w =>
    match lookup_live (now env) k (kv w) with
    | None => (Ret 0, w)
    | Some (v, _) => (Ret 1, set_kv (insert k (v, Some (now env + s))) w)
    end).

(** [EXISTS key] *)
Definition redis_exists (env : Env) (op : RedisOp) (k : string) : M Z :=
  redis_call env op (fun w =>
    match lookup_live (now env) k (kv w) with
    | None => (Ret 0, w)
    | Some _ => (Ret 1, w)
    end).

(** [SET key v EX seconds] *)
Definition redis_set (env : Env) (op : RedisOp) (k : string) (v s : Z) : M unit :=
  redis_call env op (fun w =>
    (Ret tt, set_kv (insert k (v, Some (now env + s))) w)).

(** [DEL key] *)
Definition redis_delete (env : Env) (op : RedisOp) (k : string) : M unit :=
  redis_call env op (fun w => (Ret tt, set_kv (delete k) w)).

(** [PUBLISH channel message] *)
Definition redis_publish (env : Env) (op : RedisOp) (c : string)
    (m : ChannelMessage) : M unit :=
  redis_call env op (fun w => (Ret tt, add_channel c m w)).

Definition list_at (k : string) (w : World) : list ChannelMessage :=
  default [] (lists w !! k).

(** [LPUSH key message] *)
Definition redis_lpush (env : Env) (op : RedisOp) (k : string)
    (m : ChannelMessage) : M unit :=
  redis_call env op (fun w =>
    (Ret tt, set_lists (insert k (m :: list_at k w)) w)).

(** [LTRIM key 0 stop] *)
Definition redis_ltrim (env : Env) (op : RedisOp) (k : string) (stop : nat)
    : M unit :=
  redis_call env op (fun w =>
    match lists w !! k with
    | Some l => (Ret tt, set_lists (insert k (take (S stop) l)) w)
    | None => (Ret tt, w)
    end).

(** [LRANGE key 0 stop] *)
Definition redis_lrange (k : string) (stop : nat) (w : World)
    : list ChannelMessage :=
  take (S stop) (list_at k w).

(** [websocket.send_text(json.dumps(reply))] *)
Definition send_text (env : Env) (r : Reply) : M unit :=
  fun w => if send_fails env then (Exc, w) else (Ret tt, add_outbox r w).

(** ** The inbound relay *)

Inductive flow : Type :=
| Proceed    (* fall through to the publish *)
| Continue.  (* [continue]: next frame *)

(** What the first [try] of the loop body leaves in its three locals. *)
Record Parsed : Type := {
  msg_text : string;
  ts : Z;
  client_id : pyval
}.

(** [payload.get(key)] on a dict *)
Definition dict_get (d : gmap string pyval) (k : string) : pyval :=
  default PNone (d !! k).

Section Relay.

(** [int(s)] on a [str]; [None] when it raises [ValueError]. *)
Variable int_of_str : string -> option Z.
(** [app.core.config.settings] *)
Variable settings : Settings.
(** The connection served by this [chat_ws] call. *)
Variable sess : Session.

(** [int(v)]; [None] when it raises. *)
Definition py_int (v : pyval) : option Z :=
  match v with
  | PNone => None
  | PBool b => Some (if b then 1 else 0)
  | PInt n => Some n
  | PStr s => int_of_str s
  | POpaque _ i _ => i
  end.

(** The [except] branch of lines 90-93. *)
Definition fallback (env : Env) (f : Frame) : Parsed :=
  {| msg_text := raw f; ts := time_ms env; client_id := PNone |}.

(** Lines 84-93, the three locals.  A non-dict payload raises at the
    first [payload.get]; [int] may raise on the [ts] field. *)
Definition parse (env : Env) (f : Frame) : Parsed :=
  match loads f with
  | Some (LDict d) =>
      let text :=
        strip (py_str (py_or (dict_get d "text") (PStr EmptyString))) in
      match py_int (py_or (dict_get d "ts") (PInt 0)) with
      | Some n =>
          {| msg_text := text;
             ts := if n =? 0 then time_ms env else n;
             client_id := dict_get d "id" |}
      | None => fallback env f
      end
  | Some LOther => fallback env f
  | None => fallback env f
  end.

(** Line 85: [payload] is rebound only when [json.loads] returns. *)
Definition rebind (f : Frame) (w : World) : World :=
  match loads f with
  | Some l => set_payload (Some l) w
  | None => w
  end.

Definition read_frame (env : Env) (f : Frame) : M Parsed :=
  fun w => (Ret (parse env f), rebind f w).

(** [_avatar_url(user_id)] *)
Definition _avatar_url (env : Env) (user_id : option Z) : option string :=
  match user_id with
  | None => None
  | Some i =>
      if i =? 0 then None
      else match avatar_mtime env with
           | None => None
           | Some t =>
               Some ("/static/avatars/" +:+ pretty i +:+ ".webp?v=" +:+ pretty t)
           end
  end.

(** [verify_turnstile(token, remoteip)]; it never raises. *)
Definition verify_turnstile (env : Env) (token : pyval)
    (remoteip : option string) : bool :=
  if negb (secret_configured settings) then true
  else if negb (truthy token) then false
  else siteverify env.

Definition sender_key : string :=
  match user sess with
  | Some u => "user:" +:+ pretty (id u)
  | None => "ip:" +:+ default "unknown" (client_host sess)
  end.

Definition block_key : string := "chat:block:" +:+ sender_key.
Definition count_key : string := "chat:count:" +:+ sender_key.
Definition strikes_key : string := "chat:strikes:" +:+ sender_key.
Definition challenge_key : string := "chat:challenge:" +:+ sender_key.

Definition blocked_now (ttl : Z) : string :=
  "You're sending messages too fast. Temporarily blocked. Try again in "
    +:+ pretty ttl +:+ " seconds.".

Definition blocked_minute : string :=
  "Temporarily blocked for excessive messaging. Please wait a minute.".

(** Lines 136-154, entered when [cnt > 5].  [None] is the [continue]
    after the block; otherwise the new value of [require_challenge]. *)
Definition escalate (env : Env) (cid : pyval) : M (option Z) :=
  strikes <- redis_incr env OpIncrStrikes strikes_key ;;
  (if strikes =? 1
   then (_ <- redis_expire env OpExpireStrikes strikes_key 120 ;; ret tt)
   else ret tt) ;;;
  if 3 <=? strikes then
    redis_set env OpSetBlock block_key 1 60 ;;;
    swallow (send_text env (ErrBlocked blocked_minute 60 cid)) ;;;
    ret None
  else
    redis_set env OpSetChallenge challenge_key 1 120 ;;;
    ret (Some 1).

(** [payload.get("cf")] on the local [payload]: unbound or not a dict,
    it raises. *)
Definition payload_get_cf : M pyval :=
  fun w =>
    match payload w with
    | Some (LDict d) => (Ret (dict_get d "cf"), w)
    | Some LOther => (Exc, w)
    | None => (Exc, w)
    end.

(** Lines 156-177. *)
Definition challenge_gate (env : Env) (cid : pyval) (require_challenge : Z)
    : M flow :=
  cf_token <- payload_get_cf ;;
  if negb (require_challenge =? 0) then
    let ok :=
      if truthy cf_token
      then verify_turnstile env cf_token (client_host sess)
      else false in
    if negb ok then
      swallow (send_text env (ErrChallenge cid)) ;;; ret Continue
    else
      swallow (redis_delete env OpDeleteChallenge challenge_key) ;;; ret Proceed
  else ret Proceed.

(** Lines 108-177, the body of the rate-limiting [try]. *)
Definition throttle (env : Env) (cid : pyval) : M flow :=
  ttl <- redis_ttl env OpTtlBlock block_key ;;
  if negb (ttl =? 0) && (0 <? ttl) then
    swallow (send_text env (ErrBlocked (blocked_now ttl) ttl cid)) ;;;
    ret Continue
  else
    cnt <- redis_incr env OpIncrCount count_key ;;
    (if cnt =? 1
     then (_ <- redis_expire env OpExpireCount count_key 10 ;; ret tt)
     else ret tt) ;;;
    require_challenge <- redis_exists env OpExistsChallenge challenge_key ;;
    esc <- (if 5 <? cnt then escalate env cid
            else ret (Some require_challenge)) ;;
    match esc with
    | None => ret Continue
    | Some rc => challenge_gate env cid rc
    end.

(** Line 183. *)
Definition make_event (env : Env) (p : Parsed) : ChannelMessage :=
  {| ev_id := uuid4 env;
     ev_user := display_name sess;
     ev_text := msg_text p;
     ev_ts := ts p;
     ev_avatar := _avatar_url env (option_map id (user sess));
     ev_client_id := client_id p |}.

(** Lines 186-191: [LPUSH] then [LTRIM 0 49], failures ignored. *)
Definition persist (env : Env) (event : ChannelMessage) : M unit :=
  swallow (redis_lpush env OpLpush HISTORY_KEY event ;;;
           redis_ltrim env OpLtrim HISTORY_KEY 49).

(** Lines 181-191. *)
Definition publish_event (env : Env) (p : Parsed) : M unit :=
  let event := make_event env p in
  redis_publish env OpPublish CHANNEL_NAME event ;;;
  persist env event.

(** One iteration of [while True] (lines 83-191) on a received frame.
    [Exc] is an exception that leaves the loop (line 194). *)
Definition writer_step (env : Env) (f : Frame) : M unit :=
  p <- read_frame env f ;;
  if is_empty (msg_text p) then ret tt
  else if no_display_name sess then ret tt
  else if 2000 <? len (msg_text p) then
    swallow (send_text env (ErrTooLong (client_id p)))
  else
    fl <- try_except (throttle env (client_id p)) (ret Proceed) ;;
    match fl with
    | Continue => ret tt
    | Proceed => publish_event env p
    end.

(** [writer]: the loop over the frames the socket delivers, each with
    the environment it is processed in.  The boolean tells whether the
    loop is still running after the last frame. *)
Fixpoint writer (inputs : list (Env * Frame)) (w : World) : bool * World :=
  match inputs with
  | [] => (true, w)
  | (env, f) :: rest =>
      match writer_step env f w with
      | (Ret _, w') => writer rest w'
      | (Exc, w') => (false, w')
      end
  end.

End Relay.

(** ** Concrete data for examples *)

Definition empty_world : World :=
  {| kv := ∅; lists := ∅; channel := []; outbox := []; payload := None;
     raised := [] |}.

Definition default_settings : Settings := {| TURNSTILE_SECRET_KEY := None |}.

(** Decimal digits only: the fragment of [int(s)] the examples need. *)
Fixpoint digits (s : string) (acc : Z) : option Z :=
  match s with
  | EmptyString => Some acc
  | String c r =>
      let n := Z.of_nat (nat_of_ascii c) in
      if (48 <=? n) && (n <=? 57) then digits r (10 * acc + (n - 48)) else None
  end.

Definition int_of_digits (s : string) : option Z :=
  if is_empty s then None else digits s 0.

Definition alice : Session :=
  {| user := Some {| id := 7; email := "alice@example.org"; name := Some "alice" |};
     client_host := Some "10.0.0.5" |}.

Definition anonymous : Session :=
  {| user := None; client_host := Some "10.0.0.9" |}.

Definition env_at (t : Z) : Env :=
  {| now := t; time_ms := t * 1000; uuid4 := "uuid-" +:+ pretty t;
     avatar_mtime := None; siteverify := false;
     redis_fails := no_faults; send_fails := false |}.

Definition dq : string := String (ascii_of_nat 34) EmptyString.

(** The frame [{"text": t}] *)
Definition text_frame (t : string) : Frame :=
  {| raw := "{" +:+ dq +:+ "text" +:+ dq +:+ ": " +:+ dq +:+ t +:+ dq +:+ "}";
     loads := Some (LDict {[ "text" := PStr t ]}) |}.


(** ** Predicates used in the statements *)

Section Views.
Variable int_of_str : string -> option Z.
Variable sess : Session.

(** The frame is dropped by one of the three checks of lines 94-105. *)
Definition rejected_at_validation (env : Env) (f : Frame) : bool :=
  let p := parse int_of_str env f in
  is_empty (msg_text p) || no_display_name sess || (2000 <? len (msg_text p)).

(** The frame passes the three checks of lines 94-105. *)
Definition valid (env : Env) (f : Frame) : bool :=
  negb (rejected_at_validation env f).

End Views.

(** Redis answers every call of this iteration. *)
Definition fault_free (env : Env) : Prop :=
  forall op, redis_fails env op = false.

(** The value the next [INCR key] returns. *)
Definition next_value (t : Z) (k : string) (m : gmap string (Z * option Z)) : Z :=
  match lookup_live t k m with
  | Some (v, _) => v + 1
  | None => 1
  end.

(** The entry [INCR key] stores. *)
Definition incr_entry (t : Z) (k : string) (m : gmap string (Z * option Z))
    : Z * option Z :=
  match lookup_live t k m with
  | Some (v, x) => (v + 1, x)
  | None => (1, None)
  end.

(** The answer of [TTL key]. *)
Definition ttl_of (t : Z) (k : string) (m : gmap string (Z * option Z)) : Z :=
  match lookup_live t k m with
  | None => -2
  | Some (_, None) => -1
  | Some (_, Some x) => x - t
  end.

(** The test of line 116 on that answer. *)
Definition blocked (t : Z) (k : string) (m : gmap string (Z * option Z)) : bool :=
  negb (ttl_of t k m =? 0) && (0 <? ttl_of t k m).

(** The answer of [EXISTS key]. *)
Definition exists_of (t : Z) (k : string) (m : gmap string (Z * option Z)) : Z :=
  match lookup_live t k m with
  | None => 0
  | Some _ => 1
  end.

(** The keys after [EXPIRE key s]. *)
Definition expire_map (t : Z) (k : string) (s : Z)
    (m : gmap string (Z * option Z)) : gmap string (Z * option Z) :=
  match lookup_live t k m with
  | None => m
  | Some (v, _) => <[k := (v, Some (t + s))]> m
  end.

(** The keys after [INCR key] followed, when it returned 1, by
    [EXPIRE key s] (lines 130-132 and 136-138). *)
Definition count_up (t : Z) (k : string) (s : Z)
    (m : gmap string (Z * option Z)) : gmap string (Z * option Z) :=
  let m1 := <[k := incr_entry t k m]> m in
  if next_value t k m =? 1 then expire_map t k s m1 else m1.

(** The world after [try: send_text(r) except Exception: pass]. *)
Definition maybe_send (env : Env) (r : Reply) (w : World) : World :=
  if send_fails env then w else add_outbox r w.

(** Some sent frame carries the code [c]. *)
Definition replied (c : string) (w : World) : Prop :=
  exists r, In r (outbox w) /\ code r = c.

Definition long_text : string := string_of_list_ascii (repeat "a"%char 2001).

(** A computation that sends nothing, and records a raised call only
    when it raises itself. *)
Definition clean {A} (m : M A) : Prop :=
  forall w,
    outbox (snd (m w)) = outbox w
    /\ (forall a, fst (m w) = Ret a -> raised (snd (m w)) = raised w).

(** A computation that either asks for the next frame after a run
    without raised calls, or has sent nothing. *)
Definition guarded (m : M flow) : Prop :=
  forall w,
    match fst (m w) with
    | Ret Continue => raised (snd (m w)) = raised w
    | _ => outbox (snd (m w)) = outbox w
    end.

(** The same for the escalation block, whose [None] is the [continue]. *)
Definition guarded_opt (m : M (option Z)) : Prop :=
  forall w,
    match fst (m w) with
    | Ret None => raised (snd (m w)) = raised w
    | Ret (Some _) =>
        outbox (snd (m w)) = outbox w /\ raised (snd (m w)) = raised w
    | Exc => outbox (snd (m w)) = outbox w
    end.

(** A computation that leaves the channel, the lists and the local
    [payload] alone. *)
Definition keeps_log {A} (m : M A) : Prop :=
  forall w,
    channel (snd (m w)) = channel w
    /\ lists (snd (m w)) = lists w
    /\ payload (snd (m w)) = payload w.


(** The history list, as [LRANGE] would read it whole. *)
Definition history (w : World) : list ChannelMessage := list_at HISTORY_KEY w.

(** The channel entries of the messages [new], newest first. *)
Definition on_channel (new : list ChannelMessage) : list (string * ChannelMessage) :=
  map (pair CHANNEL_NAME) new.

(** [LPUSH] and [LTRIM] are answered in every iteration of [inputs]. *)
Definition history_store_up (inputs : list (Env * Frame)) : Prop :=
  Forall (fun i => redis_fails (fst i) OpLpush = false
                   /\ redis_fails (fst i) OpLtrim = false) inputs.

(** What clients and Redis can see of a world: everything but the local
    variable [payload]. *)
Definition observable (w : World) :=
  (kv w, lists w, channel w, outbox w, raised w).

(** A computation that neither reads nor writes the local [payload]. *)
Definition payload_blind {A} (m : M A) : Prop :=
  forall w q, m (set_payload q w) = (fst (m w), set_payload q (snd (m w))).

(** Two payload dicts that differ at most in their [user] and [username]
    fields. *)
Definition same_but_user (d1 d2 : gmap string pyval) : Prop :=
  forall k, k <> "user" -> k <> "username" -> d1 !! k = d2 !! k.

(** A computation that looks at the local [payload] only through its
    [cf] field. *)
Definition cf_only {A} (m : M A) : Prop :=
  forall w d1 d2,
    dict_get d1 "cf" = dict_get d2 "cf" ->
    fst (m (set_payload (Some (LDict d1)) w))
    = fst (m (set_payload (Some (LDict d2)) w))
    /\ exists w',
         snd (m (set_payload (Some (LDict d1)) w))
         = set_payload (Some (LDict d1)) w'
         /\ snd (m (set_payload (Some (LDict d2)) w))
            = set_payload (Some (LDict d2)) w'.

(** The frame [{"text": "hi", "ts": "x", "user": u}]: its [ts] is not a
    number, so line 88 raises and the whole frame becomes the text. *)
Definition bad_ts_frame (u : string) : Frame :=
  {| raw := "{" +:+ dq +:+ "text" +:+ dq +:+ ": " +:+ dq +:+ "hi" +:+ dq
            +:+ ", " +:+ dq +:+ "ts" +:+ dq +:+ ": " +:+ dq +:+ "x" +:+ dq
            +:+ ", " +:+ dq +:+ "user" +:+ dq +:+ ": " +:+ dq +:+ u +:+ dq
            +:+ "}";
     loads := Some (LDict (<["user" := PStr u]>
                             {[ "text" := PStr "hi"; "ts" := PStr "x" ]})) |}.

(** The frame [{"text": "hi", "user": u}]. *)
Definition user_frame (u : string) : Frame :=
  {| raw := "{" +:+ dq +:+ "text" +:+ dq +:+ ": " +:+ dq +:+ "hi" +:+ dq
            +:+ ", " +:+ dq +:+ "user" +:+ dq +:+ ": " +:+ dq +:+ u +:+ dq
            +:+ "}";
     loads := Some (LDict (<["user" := PStr u]> {[ "text" := PStr "hi" ]})) |}.

(** [n] frames [{"text": "hi"}] in the same second [t]. *)
Definition burst (n : nat) (t : Z) : list (Env * Frame) :=
  repeat (env_at t, text_frame "hi") n.

(** The world of [alice] after such a burst on an empty Redis. *)
Definition after_burst (n : nat) (t : Z) : World :=
  snd (writer int_of_digits default_settings alice (burst n t) empty_world).

(** The frame [{"text": "hi", "cf": token}]. *)
Definition token_frame (token : string) : Frame :=
  {| raw := "{" +:+ dq +:+ "text" +:+ dq +:+ ": " +:+ dq +:+ "hi" +:+ dq
            +:+ ", " +:+ dq +:+ "cf" +:+ dq +:+ ": " +:+ dq +:+ token +:+ dq
            +:+ "}";
     loads := Some (LDict {[ "text" := PStr "hi"; "cf" := PStr token ]}) |}.

(** ** Bursts and windows *)

(** The second at which an input is processed. *)
Definition arrival (i : Env * Frame) : Z := now (fst i).

(** The input arrives in the 10 seconds that start at [t]. *)
Definition in_window (t : Z) (i : Env * Frame) : bool :=
  (t <=? arrival i) && (arrival i <? t + 10).

(** How many inputs of [l] arrive in the 10 seconds that start at [t]. *)
Definition count_in (t : Z) (l : list (Env * Frame)) : nat :=
  length (filter (fun i => in_window t i = true) l).

(** At most 5 inputs in any 10 seconds. *)
Definition at_most_five_per_window (l : list (Env * Frame)) : Prop :=
  forall t, (count_in t l <= 5)%nat.

Section Windows.
Variable int_of_str : string -> option Z.
Variable sess : Session.

(** No strike, challenge or block key is stored for the sender. *)
Definition calm (m : gmap string (Z * option Z)) : Prop :=
  m !! block_key sess = None
  /\ m !! strikes_key sess = None
  /\ m !! challenge_key sess = None.

(** The sender has no rate-limit key at all. *)
Definition fresh (m : gmap string (Z * option Z)) : Prop :=
  m !! count_key sess = None /\ calm m.

(** The iteration gets a frame that passes validation, and every Redis
    call is answered. *)
Definition sound (i : Env * Frame) : Prop :=
  valid int_of_str sess (fst i) (snd i) = true /\ fault_free (fst i).

(** The event line 183 builds for an input. *)
Definition event_of (i : Env * Frame) : ChannelMessage :=
  make_event sess (fst i) (parse int_of_str (fst i) (snd i)).

(** The channel entries of a list of inputs all published in order. *)
Definition published (l : list (Env * Frame)) : list (string * ChannelMessage) :=
  on_channel (rev (map event_of l)).

(** The count key is absent, or it was created at the arrival of an
    earlier input, 10 seconds before its expiry, and counts no more
    than the inputs processed since in its window. *)
Definition window_open (m : gmap string (Z * option Z))
    (done todo : list (Env * Frame)) : Prop :=
  m !! count_key sess = None
  \/ exists c x,
       m !! count_key sess = Some (c, Some x)
       /\ 1 <= c
       /\ c <= Z.of_nat (count_in (x - 10) done)
       /\ Forall (fun i => x - 10 <= arrival i) todo.

End Windows.

(** Inputs in the order of their arrival. *)
Definition in_arrival_order (l : list (Env * Frame)) : Prop :=
  StronglySorted (fun a b => arrival a <= arrival b) l.

(** ** Further predicates on published messages *)

(** What every consumer of the channel may rely on: a text that is not
    empty and has at most 2000 characters, and a display name that is
    not empty and has at most 32. *)
Definition well_formed_event (e : ChannelMessage) : Prop :=
  is_empty (ev_text e) = false
  /\ len (ev_text e) <= 2000
  /\ exists d, ev_user e = Some d /\ is_empty d = false /\ len d <= 32.

(** A computation that sends at most one frame. *)
Definition at_most_one_reply {A} (m : M A) : Prop :=
  forall w,
    outbox (snd (m w)) = outbox w
    \/ exists r, outbox (snd (m w)) = r :: outbox w.

(** A computation that leaves the Redis key [k] as it is. *)
Definition keeps_key (k : string) {A} (m : M A) : Prop :=
  forall w, kv (snd (m w)) !! k = kv w !! k.

(** ** Connect time and the outbound relay ([chat_ws], lines 42-78) *)

Section Connect.
(** [json.loads] on an entry of the history list; [None] when it raises.
    An entry the relay stored stands for its own serialised form. *)
Variable json_loads : ChannelMessage -> option ChannelMessage.

(** Lines 53-60: the entries are walked in reverse and those that do not
    decode are skipped. *)
Definition history_items (raw : list ChannelMessage) : list ChannelMessage :=
  omap json_loads (rev raw).

(** Lines 51-63: the items of the [history] frame the client gets, or
    [None] when [LRANGE] or [send_text] raises and no frame is sent. *)
Definition send_history (lrange_fails send_fails : bool) (w : World)
    : option (list ChannelMessage) :=
  if lrange_fails then None
  else
    let history := history_items (redis_lrange HISTORY_KEY 49 w) in
    if send_fails then None else Some history.

End Connect.

(** What [pubsub.listen()] yields: a dict with a [type] and, for a
    published message, its text as [data] ([None]: data that is no text,
    as the subscription count of a confirmation). *)
Record PubSubMessage : Type := {
  ps_type : string;
  ps_data : option ChannelMessage
}.

(** [reader] (lines 65-78): the frames forwarded to the socket, in
    order.  [sendable] is the number of [send_text] calls the socket
    takes before it raises; the end of [feed] is the end of the
    subscription. *)
Fixpoint reader (feed : list (option PubSubMessage)) (sendable : nat)
    : list ChannelMessage :=
  match feed with
  | [] => []
  | None :: rest => reader rest sendable
  | Some message :: rest =>
      if negb (String.eqb (ps_type message) "message") then reader rest sendable
      else
        match ps_data message, sendable with
        | Some data, S n => data :: reader rest n
        | _, _ => []
        end
  end.

(** The texts a feed offers for forwarding. *)
Definition forwardable (feed : list (option PubSubMessage)) : list ChannelMessage :=
  omap (fun o =>
          match o with
          | Some message =>
              if String.eqb (ps_type message) "message" then ps_data message
              else None
          | None => None
          end) feed.

(** Every item of type [message] carries a text. *)
Definition texts_only (feed : list (option PubSubMessage)) : Prop :=
  Forall (fun o =>
            match o with
            | Some message =>
                String.eqb (ps_type message) "message" = true ->
                ps_data message <> None
            | None => True
            end) feed.

(** Redis pub/sub as seen by one subscriber of [CHANNEL_NAME]: the
    confirmation of the subscription, then one [message] per entry
    published since (given newest first, as [channel] keeps them), oldest
    first. *)
Definition listen (since : list (string * ChannelMessage))
    : list (option PubSubMessage) :=
  Some {| ps_type := "subscribe"; ps_data := None |}
  :: map (fun c => Some {| ps_type := "message"; ps_data := Some (snd c) |})
       (rev (filter (fun c => fst c = CHANNEL_NAME) since)).

(** ** Identity at connect time ([app/core/security.py], lines 64-79) *)

(** What the lookup depends on: [decode_access_token] ([None]: the token
    is rejected) and the rows of the [users] table. *)
Record AuthDeps : Type := {
  decode_access_token : string -> option (gmap string pyval);
  users : list User
}.

(** [result.scalar_one_or_none()]: it raises on more than one row. *)
Definition scalar_one_or_none (rows : list User) : res (option User) :=
  match rows with
  | [] => Ret None
  | [u] => Ret (Some u)
  | _ :: _ :: _ => Exc
  end.

(** [get_user_from_websocket]; [cookie_name] is
    [settings.JWT_COOKIE_NAME]. *)
Definition get_user_from_websocket (int_of_str : string -> option Z)
    (cookie_name : string) (deps : AuthDeps) (cookies : gmap string string)
    : res (option User) :=
  match cookies !! cookie_name with
  | None => Ret None
  | Some token =>
      if is_empty token then Ret None
      else
        match decode_access_token deps token with
        | None => Ret None
        | Some payload =>
            if decide (payload = ∅) then Ret None
            else
              let sub := dict_get payload "sub" in
              if negb (truthy sub) then Ret None
              else
                match py_int int_of_str sub with
                | None => Ret None
                | Some user_id =>
                    scalar_one_or_none
                      (filter (fun u => id u = user_id) (users deps))
                end
        end
  end.

(** Lines 42-44 of [chat_ws]: the session the loop runs in; [None] when
    the lookup raises and the handler ends before the loop starts. *)
Definition open_session (int_of_str : string -> option Z)
    (cookie_name : string) (deps : AuthDeps) (cookies : gmap string string)
    (host : option string) : option Session :=
  match get_user_from_websocket int_of_str cookie_name deps cookies with
  | Ret u => Some {| user := u; client_host := host |}
  | Exc => None
  end.

(** ** The shared Redis client ([app/core/redis_client.py]) *)

(** The module variable [_redis] ([None] or the client made by
    [Redis.from_url], named by its rank) and the number of clients made
    so far. *)
Record ClientState : Type := {
  _redis : option nat;
  made : nat
}.

(** [get_redis] *)
Definition get_redis (st : ClientState) : nat * ClientState :=
  match _redis st with
  | Some client => (client, st)
  | None => (made st, {| _redis := Some (made st); made := S (made st) |})
  end.

(** [close_redis]; [aclose] may raise, and then [_redis] is not reset. *)
Definition close_redis (aclose_fails : bool) (st : ClientState)
    : res unit * ClientState :=
  match _redis st with
  | Some _ =>
      if aclose_fails then (Exc, st)
      else (Ret tt, {| _redis := None; made := made st |})
  | None => (Ret tt, st)
  end.

(** The calls the application makes, in order. *)
Inductive client_call : Type :=
| GetRedis
| CloseRedis (aclose_fails : bool).

(** The clients the [get_redis] calls of a sequence return, in order,
    and the state at its end. *)
Fixpoint client_calls (calls : list client_call) (st : ClientState)
    : list nat * ClientState :=
  match calls with
  | [] => ([], st)
  | GetRedis :: rest =>
      let '(client, st1) := get_redis st in
      let '(clients, st2) := client_calls rest st1 in
      (client :: clients, st2)
  | CloseRedis fails :: rest => client_calls rest (snd (close_redis fails st))
  end.

(** Every client is named by a rank below the number made. *)
Definition client_state_ok (st : ClientState) : Prop :=
  match _redis st with
  | Some client => (client < made st)%nat
  | None => True
  end.

Definition is_get (c : client_call) : bool :=
  match c with GetRedis => true | CloseRedis _ => false end.

(** ** The avatar on the chat page ([app/middleware/auth.py], lines 13-28) *)

(** [request.state.avatar_url] as [AuthMiddleware.dispatch] leaves it. *)
Definition middleware_avatar_url (env : Env) (u : option User) : option string :=
  match u with
  | None => None
  | Some v =>
      if id v =? 0 then None
      else
        match avatar_mtime env with
        | Some t =>
            Some ("/static/avatars/" +:+ pretty (id v) +:+ ".webp?v=" +:+ pretty t)
        | None => None
        end
  end.

(** ** Further concrete data *)

(** A frame that is no JSON at all. *)
Definition plain_frame (t : string) : Frame := {| raw := t; loads := None |}.

Definition bob : Session :=
  {| user := Some {| id := 8; email := "bob@example.org"; name := None |};
     client_host := Some "10.0.0.6" |}.

(** A token service that accepts the token [good] for the user 7. *)
Definition demo_deps : AuthDeps :=
  {| decode_access_token := fun t =>
       if String.eqb t "good" then Some {[ "sub" := PStr "7" ]} else None;
     users := [ {| id := 7; email := "alice@example.org"; name := Some "alice" |};
                {| id := 8; email := "bob@example.org"; name := None |} ] |}.

(** [me_name] as [chat_page] passes it to the template
    ([app/web/routers/chat.py], lines 15-20). *)
Definition chat_page_me_name (u : option User) : option string :=
  match u with
  | Some v => Some (name_or_email v)
  | None => None
  end.

(** The world of [bob] after a burst of six, then taken over by a new
    connection whose local [payload] is still unbound. *)
Definition bob_after_six : World :=
  set_payload None
    (snd (writer int_of_digits default_settings bob (burst 6 100) empty_world)).

(** ** Environments in which one Redis call raises *)

#[global] Instance RedisOp_eq_dec : EqDecision RedisOp.
Proof. solve_decision. Defined.

(** The environment of second [t] in which the call [bad], and no
    other, raises. *)
Definition env_failing (bad : RedisOp) (t : Z) : Env :=
  {| now := t; time_ms := t * 1000; uuid4 := "uuid-" +:+ pretty t;
     avatar_mtime := None; siteverify := false;
     redis_fails := fun op => bool_decide (op = bad); send_fails := false |}.

(** [n] frames [{"text": "hi"}], one every 10 seconds from [t] on, each
    in the environment [mk] gives for its second. *)
Fixpoint spaced (mk : Z -> Env) (n : nat) (t : Z) : list (Env * Frame) :=
  match n with
  | O => []
  | S k => (mk t, text_frame "hi") :: spaced mk k (t + 10)
  end.

(** The token check of lines 157-162 on the local [payload]: it is a
    dict whose [cf] field is truthy and passes [verify_turnstile]. *)
Definition token_passes (settings : Settings) (sess : Session) (env : Env)
    (p : option Loaded) : bool :=
  match p with
  | Some (LDict d) =>
      if truthy (dict_get d "cf")
      then verify_turnstile settings env (dict_get d "cf") (client_host sess)
      else false
  | Some LOther => false
  | None => false
  end.

(** * Properties *)

(** ** The monad and the Redis commands *)

Lemma lookup_live_insert_eq t k e (m : gmap string (Z * option Z)) :
  lookup_live t k (<[k := e]> m) = if live t e then Some e else None.
Proof. unfold lookup_live. now rewrite lookup_insert_eq. Qed.

(** Two keys built with different literal prefixes are different. *)
Ltac distinct_prefix :=
  let H := fresh in intros H; injection H; intros; discriminate.

Section Keys.
Variable sess : Session.

Lemma block_count : block_key sess ≠ count_key sess.
Proof. unfold block_key, count_key. distinct_prefix. Qed.
Lemma block_strikes : block_key sess ≠ strikes_key sess.
Proof. unfold block_key, strikes_key. distinct_prefix. Qed.
Lemma block_challenge : block_key sess ≠ challenge_key sess.
Proof. unfold block_key, challenge_key. distinct_prefix. Qed.
Lemma count_strikes : count_key sess ≠ strikes_key sess.
Proof. unfold count_key, strikes_key. distinct_prefix. Qed.
Lemma count_challenge : count_key sess ≠ challenge_key sess.
Proof. unfold count_key, challenge_key. distinct_prefix. Qed.
Lemma strikes_challenge : strikes_key sess ≠ challenge_key sess.
Proof. unfold strikes_key, challenge_key. distinct_prefix. Qed.
End Keys.

(** ** One iteration, case by case *)

Lemma writer_step_unfold int_of_str settings sess env f w :
  writer_step int_of_str settings sess env f w =
  let p := parse int_of_str env f in
  let w0 := rebind f w in
  if is_empty (msg_text p) then (Ret tt, w0)
  else if no_display_name sess then (Ret tt, w0)
  else if 2000 <? len (msg_text p) then
    swallow (send_text env (ErrTooLong (client_id p))) w0
  else
    match throttle settings sess env (client_id p) w0 with
    | (Ret Continue, w1) => (Ret tt, w1)
    | (Ret Proceed, w1) => publish_event sess env p w1
    | (Exc, w1) => publish_event sess env p w1
    end.
Proof.
  unfold writer_step, read_frame. unfold bind at 1. cbv zeta.
  destruct (is_empty (msg_text (parse int_of_str env f))); [reflexivity|].
  destruct (no_display_name sess); [reflexivity|].
  destruct (2000 <? len (msg_text (parse int_of_str env f))); [reflexivity|].
  unfold bind, try_except, ret.
  destruct (throttle _ _ _ _ _) as [[[|]|] w1]; reflexivity.
Qed.

(** ** Validation (lines 94-105) *)

Section Validation.
Variable int_of_str : string -> option Z.
Variable settings : Settings.
Variable sess : Session.

Local Abbreviation step := (writer_step int_of_str settings sess).

(** C9: a frame rejected at the validation stage (empty text, no
    display name, or more than 2000 characters) leaves every Redis key,
    hence the four rate-limit keys of every sender, as it was; and the
    iteration does not depend on the stored keys, so it reads none. *)
Theorem validation_rejection_frame (env : Env) (f : Frame) (w : World) :
  rejected_at_validation int_of_str sess env f = true ->
  kv (snd (step env f w)) = kv w
  /\ forall m,
       step env f (set_kv (fun _ => m) w)
       = (fst (step env f w), set_kv (fun _ => m) (snd (step env f w))).
Proof.
  unfold rejected_at_validation, writer_step, read_frame, bind. intros H.
  destruct (is_empty (msg_text (parse int_of_str env f))) eqn:E1.
  { split; [|intros m]; unfold rebind; destruct (loads f); reflexivity. }
  destruct (no_display_name sess) eqn:E2.
  { split; [|intros m]; unfold rebind; destruct (loads f); reflexivity. }
  simpl in H. rewrite H. unfold swallow, try_except, send_text, ret.
  split; [|intros m]; unfold rebind;
    destruct (loads f), (send_fails env); reflexivity.
Qed.

(** C8, amended: whatever the rate-limit keys hold, a frame whose text
    exceeds 2000 characters is neither published nor appended to the
    history, and the loop goes on; when the connection has a display
    name (and the socket takes the frame) the reply sent is the
    [too_long] error; a connection without display name gets no reply. *)
Theorem too_long_rejected (env : Env) (f : Frame) (w : World) :
  2000 < len (msg_text (parse int_of_str env f)) ->
  fst (step env f w) = Ret tt
  /\ channel (snd (step env f w)) = channel w
  /\ lists (snd (step env f w)) = lists w
  /\ kv (snd (step env f w)) = kv w
  /\ (no_display_name sess = false -> send_fails env = false ->
      outbox (snd (step env f w))
      = ErrTooLong (client_id (parse int_of_str env f)) :: outbox w)
  /\ (no_display_name sess = true -> outbox (snd (step env f w)) = outbox w).
Proof.
  intros H. unfold writer_step, read_frame, bind.
  assert (E : is_empty (msg_text (parse int_of_str env f)) = false).
  { unfold len in H. destruct (msg_text (parse int_of_str env f)); [simpl in H; lia|reflexivity]. }
  rewrite E. apply Z.ltb_lt in H. rewrite H.
  unfold swallow, try_except, send_text, ret, rebind.
  destruct (no_display_name sess), (loads f), (send_fails env); simpl;
    repeat split; try reflexivity; intros; try discriminate.
Qed.

End Validation.

(** C8, witness. *)
Lemma too_long_rejected_witness :
  outbox (snd (writer_step int_of_digits default_settings alice (env_at 100)
                 (text_frame long_text) empty_world))
  = [ErrTooLong PNone].
Proof.
  pose proof (too_long_rejected int_of_digits default_settings alice (env_at 100)
                (text_frame long_text) empty_world) as H.
  destruct H as (_ & _ & _ & _ & H & _); [vm_compute; reflexivity|].
  rewrite H; [vm_compute; reflexivity | reflexivity | reflexivity].
Defined.

(** C8 as stated fails: a connection without identity that sends 2001
    characters is dropped at line 97 and gets no [too_long] frame. *)
Lemma too_long_anonymous_no_reply :
  let f := text_frame long_text in
  let w' := snd (writer_step int_of_digits default_settings anonymous
                   (env_at 100) f empty_world) in
  2000 < len (msg_text (parse int_of_digits (env_at 100) f))
  /\ ~ replied "too_long" w'.
Proof.
  split; [vm_compute; reflexivity|].
  intros (r & Hin & _). vm_compute in Hin. exact Hin.
Qed.

(** C9, witness. *)
Lemma validation_rejection_frame_witness :
  kv (snd (writer_step int_of_digits default_settings anonymous (env_at 100)
             (text_frame "hello") empty_world)) = ∅.
Proof.
  apply (validation_rejection_frame int_of_digits default_settings anonymous
           (env_at 100) (text_frame "hello") empty_world).
  vm_compute. reflexivity.
Defined.

(** ** Failures of the backing store *)

Lemma clean_ret {A} (a : A) : clean (ret a).
Proof. intros w. split; reflexivity. Qed.

Lemma clean_bind {A B} (m : M A) (k : A -> M B) :
  clean m -> (forall a, clean (k a)) -> clean (bind m k).
Proof.
  intros Hm Hk w. unfold bind. destruct (Hm w) as [Ho Hr].
  destruct (m w) as [[a|] w1] eqn:E; simpl in *.
  - destruct (Hk a w1) as [Ho' Hr']. split; [congruence|].
    intros b Hb. rewrite (Hr' b Hb). now apply (Hr a).
  - split; [assumption|]. intros b Hb. discriminate.
Qed.

Lemma clean_call {A} env op (m : M A) :
  clean m -> clean (redis_call env op m).
Proof.
  intros Hm w. unfold redis_call. destruct (redis_fails env op); [|apply Hm].
  split; [reflexivity|]. intros a Ha. discriminate.
Qed.

Lemma clean_ttl env op k : clean (redis_ttl env op k).
Proof.
  apply clean_call. intros w.
  destruct (lookup_live (now env) k (kv w)) as [[v [x|]]|]; split; reflexivity.
Qed.

Lemma clean_incr env op k : clean (redis_incr env op k).
Proof.
  apply clean_call. intros w.
  destruct (lookup_live (now env) k (kv w)) as [[v x]|]; split; reflexivity.
Qed.

Lemma clean_expire env op k s : clean (redis_expire env op k s).
Proof.
  apply clean_call. intros w.
  destruct (lookup_live (now env) k (kv w)) as [[v x]|]; split; reflexivity.
Qed.

Lemma clean_exists env op k : clean (redis_exists env op k).
Proof.
  apply clean_call. intros w.
  destruct (lookup_live (now env) k (kv w)) as [[v x]|]; split; reflexivity.
Qed.

Lemma clean_set env op k v s : clean (redis_set env op k v s).
Proof. apply clean_call. intros w. split; reflexivity. Qed.

Lemma clean_payload_get_cf : clean payload_get_cf.
Proof.
  intros w. unfold payload_get_cf.
  destruct (payload w) as [[d|]|]; split; reflexivity.
Qed.

Lemma clean_first_expire (c : Z) env op k s :
  clean (if c =? 1 then (_ <- redis_expire env op k s ;; ret tt) else ret tt).
Proof.
  destruct (c =? 1); [|apply clean_ret].
  apply clean_bind; [apply clean_expire|intros; apply clean_ret].
Qed.

Lemma guarded_bind {A} (m : M A) (k : A -> M flow) :
  clean m -> (forall a, guarded (k a)) -> guarded (bind m k).
Proof.
  intros Hm Hk w. unfold bind. destruct (Hm w) as [Ho Hr].
  destruct (m w) as [[a|] w1] eqn:E; simpl in *; [|assumption].
  specialize (Hk a w1). rewrite (Hr a eq_refl) in Hk.
  destruct (fst (k a w1)) as [[|]|]; congruence.
Qed.

Lemma guarded_reply env (r : Reply) :
  guarded (swallow (send_text env r) ;;; ret Continue).
Proof.
  intros w. unfold swallow, try_except, send_text, bind, ret.
  destruct (send_fails env); reflexivity.
Qed.

Lemma guarded_opt_bind {A} (m : M A) (k : A -> M (option Z)) :
  clean m -> (forall a, guarded_opt (k a)) -> guarded_opt (bind m k).
Proof.
  intros Hm Hk w. unfold bind. destruct (Hm w) as [Ho Hr].
  destruct (m w) as [[a|] w1] eqn:E; simpl in *; [|assumption].
  specialize (Hk a w1). rewrite (Hr a eq_refl) in Hk.
  destruct (fst (k a w1)) as [[z|]|]; [destruct Hk; split|..]; congruence.
Qed.

Lemma guarded_after_opt (m : M (option Z)) (k : Z -> M flow) :
  guarded_opt m -> (forall rc, guarded (k rc)) ->
  guarded (esc <- m ;;
           match esc with None => ret Continue | Some rc => k rc end).
Proof.
  intros Hm Hk w. unfold bind. specialize (Hm w).
  destruct (m w) as [[[rc|]|] w1] eqn:E; simpl in *; try assumption.
  destruct Hm as [Ho Hr]. specialize (Hk rc w1).
  destruct (fst (k rc w1)) as [[|]|]; congruence.
Qed.

Section Failures.
Variable int_of_str : string -> option Z.
Variable settings : Settings.
Variable sess : Session.

Local Abbreviation step := (writer_step int_of_str settings sess).

Lemma guarded_opt_escalate env cid : guarded_opt (escalate sess env cid).
Proof.
  unfold escalate.
  apply guarded_opt_bind; [apply clean_incr|intros strikes].
  apply guarded_opt_bind; [apply clean_first_expire|intros _].
  destruct (3 <=? strikes).
  - apply guarded_opt_bind; [apply clean_set|intros _].
    intros w. unfold swallow, try_except, send_text, bind, ret.
    destruct (send_fails env); reflexivity.
  - apply guarded_opt_bind; [apply clean_set|intros _].
    intros w. split; reflexivity.
Qed.

Lemma guarded_challenge_gate env cid rc :
  guarded (challenge_gate settings sess env cid rc).
Proof.
  unfold challenge_gate.
  apply guarded_bind; [apply clean_payload_get_cf|intros cf_token].
  destruct (negb (rc =? 0)); [|intros w; reflexivity].
  destruct (negb _); [apply guarded_reply|].
  intros w. unfold swallow, try_except, redis_delete, redis_call, bind, ret.
  destruct (redis_fails env OpDeleteChallenge); reflexivity.
Qed.

Lemma guarded_throttle env cid : guarded (throttle settings sess env cid).
Proof.
  unfold throttle.
  apply guarded_bind; [apply clean_ttl|intros ttl].
  destruct (negb (ttl =? 0) && (0 <? ttl)); [apply guarded_reply|].
  apply guarded_bind; [apply clean_incr|intros cnt].
  apply guarded_bind; [apply clean_first_expire|intros _].
  apply guarded_bind; [apply clean_exists|intros require_challenge].
  apply guarded_after_opt; [|intros rc; apply guarded_challenge_gate].
  destruct (5 <? cnt); [apply guarded_opt_escalate|].
  intros w. split; reflexivity.
Qed.

Lemma persist_returns env e w : fst (persist env e w) = Ret tt.
Proof.
  unfold persist, swallow, try_except, ret.
  match goal with
  | |- context [match ?x with _ => _ end] => destruct x as [[[]|] w1]
  end; reflexivity.
Qed.

Lemma publish_event_outbox env p w :
  outbox (snd (publish_event sess env p w)) = outbox w.
Proof.
  unfold publish_event, persist, swallow, try_except, bind, ret,
    redis_publish, redis_lpush, redis_ltrim, redis_call.
  destruct (redis_fails env OpPublish); [reflexivity|].
  destruct (redis_fails env OpLpush); [reflexivity|].
  destruct (redis_fails env OpLtrim); [reflexivity|]. simpl.
  destruct (_ !! HISTORY_KEY); reflexivity.
Qed.

Lemma rebind_outbox f w : outbox (rebind f w) = outbox w.
Proof. unfold rebind. destruct (loads f); reflexivity. Qed.


End Failures.

(** ** What the rate limiter leaves alone *)

Lemma keeps_log_ret {A} (a : A) : keeps_log (ret a).
Proof. intros w. repeat split. Qed.

Lemma keeps_log_bind {A B} (m : M A) (k : A -> M B) :
  keeps_log m -> (forall a, keeps_log (k a)) -> keeps_log (bind m k).
Proof.
  intros Hm Hk w. unfold bind. destruct (Hm w) as (H1 & H2 & H3).
  destruct (m w) as [[a|] w1]; simpl in *; [|repeat split; assumption].
  destruct (Hk a w1) as (K1 & K2 & K3). repeat split; congruence.
Qed.

Lemma keeps_log_swallow (m : M unit) : keeps_log m -> keeps_log (swallow m).
Proof.
  intros Hm w. unfold swallow, try_except, ret. specialize (Hm w).
  destruct (m w) as [[a|] w1]; exact Hm.
Qed.

Lemma keeps_log_send env r : keeps_log (send_text env r).
Proof. intros w. unfold send_text. destruct (send_fails env); repeat split. Qed.

Lemma keeps_log_call {A} env op (m : M A) :
  keeps_log m -> keeps_log (redis_call env op m).
Proof.
  intros Hm w. unfold redis_call.
  destruct (redis_fails env op); [repeat split|apply Hm].
Qed.

Lemma keeps_log_ttl env op k : keeps_log (redis_ttl env op k).
Proof.
  apply keeps_log_call. intros w.
  destruct (lookup_live (now env) k (kv w)) as [[v [x|]]|]; repeat split.
Qed.

Lemma keeps_log_incr env op k : keeps_log (redis_incr env op k).
Proof.
  apply keeps_log_call. intros w.
  destruct (lookup_live (now env) k (kv w)) as [[v x]|]; repeat split.
Qed.

Lemma keeps_log_expire env op k s : keeps_log (redis_expire env op k s).
Proof.
  apply keeps_log_call. intros w.
  destruct (lookup_live (now env) k (kv w)) as [[v x]|]; repeat split.
Qed.

Lemma keeps_log_exists env op k : keeps_log (redis_exists env op k).
Proof.
  apply keeps_log_call. intros w.
  destruct (lookup_live (now env) k (kv w)) as [[v x]|]; repeat split.
Qed.

Lemma keeps_log_set env op k v s : keeps_log (redis_set env op k v s).
Proof. apply keeps_log_call. intros w. repeat split. Qed.

Lemma keeps_log_delete env op k : keeps_log (redis_delete env op k).
Proof. apply keeps_log_call. intros w. repeat split. Qed.

Lemma keeps_log_payload_get_cf : keeps_log payload_get_cf.
Proof.
  intros w. unfold payload_get_cf.
  destruct (payload w) as [[d|]|] eqn:E; repeat split; exact E.
Qed.

Lemma keeps_log_first_expire (c : Z) env op k s :
  keeps_log (if c =? 1 then (_ <- redis_expire env op k s ;; ret tt) else ret tt).
Proof.
  destruct (c =? 1); [|apply keeps_log_ret].
  apply keeps_log_bind; [apply keeps_log_expire|intros; apply keeps_log_ret].
Qed.

Lemma keeps_log_reply {A} env r (a : A) :
  keeps_log (swallow (send_text env r) ;;; ret a).
Proof.
  apply keeps_log_bind; [|intros; apply keeps_log_ret].
  apply keeps_log_swallow, keeps_log_send.
Qed.

Lemma keeps_log_escalate sess env cid : keeps_log (escalate sess env cid).
Proof.
  unfold escalate.
  apply keeps_log_bind; [apply keeps_log_incr|intros strikes].
  apply keeps_log_bind; [apply keeps_log_first_expire|intros _].
  destruct (3 <=? strikes);
    (apply keeps_log_bind; [apply keeps_log_set|intros _]).
  - apply keeps_log_reply.
  - apply keeps_log_ret.
Qed.

Lemma keeps_log_challenge_gate settings sess env cid rc :
  keeps_log (challenge_gate settings sess env cid rc).
Proof.
  unfold challenge_gate.
  apply keeps_log_bind; [apply keeps_log_payload_get_cf|intros cf_token].
  destruct (negb (rc =? 0)); [|apply keeps_log_ret].
  destruct (negb _); [apply keeps_log_reply|].
  apply keeps_log_bind; [|intros; apply keeps_log_ret].
  apply keeps_log_swallow, keeps_log_delete.
Qed.

Lemma keeps_log_throttle settings sess env cid :
  keeps_log (throttle settings sess env cid).
Proof.
  unfold throttle.
  apply keeps_log_bind; [apply keeps_log_ttl|intros ttl].
  destruct (negb (ttl =? 0) && (0 <? ttl)); [apply keeps_log_reply|].
  apply keeps_log_bind; [apply keeps_log_incr|intros cnt].
  apply keeps_log_bind; [apply keeps_log_first_expire|intros _].
  apply keeps_log_bind; [apply keeps_log_exists|intros require_challenge].
  apply keeps_log_bind.
  - destruct (5 <? cnt); [apply keeps_log_escalate|apply keeps_log_ret].
  - intros [rc|]; [apply keeps_log_challenge_gate|apply keeps_log_ret].
Qed.

(** ** Publishing and the history list (lines 181-191) *)

Lemma take_app_take {A} (n : nat) (l k : list A) :
  take n (l ++ take n k) = take n (l ++ k).
Proof.
  rewrite !take_app, take_take. f_equal. f_equal. lia.
Qed.

Lemma rebind_log f w :
  channel (rebind f w) = channel w /\ lists (rebind f w) = lists w.
Proof. unfold rebind. destruct (loads f); split; reflexivity. Qed.

(** What [publish_event] does to the channel and to the history list. *)
Lemma publish_event_log sess env p w :
  let r := publish_event sess env p w in
  let e := make_event sess env p in
  (fst r = Exc /\ channel (snd r) = channel w /\ lists (snd r) = lists w)
  \/ (fst r = Ret tt /\ channel (snd r) = (CHANNEL_NAME, e) :: channel w
      /\ (redis_fails env OpLpush = false -> redis_fails env OpLtrim = false ->
          history (snd r) = take 50 (e :: history w))).
Proof.
  unfold publish_event, persist, swallow, try_except, bind, ret,
    redis_publish, redis_lpush, redis_ltrim, redis_call.
  destruct (redis_fails env OpPublish); [left; repeat split|right].
  destruct (redis_fails env OpLpush);
    [repeat split; intros; discriminate|].
  destruct (redis_fails env OpLtrim);
    [repeat split; intros; discriminate|].
  cbn [fst snd lists set_lists add_channel channel]. rewrite lookup_insert_eq.
  cbn [fst snd lists set_lists add_channel channel]. repeat split. intros _ _.
  unfold history, list_at. cbn [lists set_lists add_channel].
  rewrite lookup_insert_eq. reflexivity.
Qed.

Section Log.
Variable int_of_str : string -> option Z.
Variable settings : Settings.
Variable sess : Session.

Local Abbreviation step := (writer_step int_of_str settings sess).
Local Abbreviation run := (writer int_of_str settings sess).

(** One iteration publishes nothing, or the event built from its own
    frame; only an iteration that published can end the loop. *)
Lemma writer_step_log env f w :
  let r := step env f w in
  let e := make_event sess env (parse int_of_str env f) in
  (channel (snd r) = channel w /\ lists (snd r) = lists w)
  \/ (fst r = Ret tt /\ channel (snd r) = (CHANNEL_NAME, e) :: channel w
      /\ (redis_fails env OpLpush = false -> redis_fails env OpLtrim = false ->
          history (snd r) = take 50 (e :: history w))).
Proof.
  cbv zeta. rewrite writer_step_unfold. cbv zeta.
  destruct (rebind_log f w) as [Rc Rl].
  destruct (is_empty _); [left; split; assumption|].
  destruct (no_display_name sess); [left; split; assumption|].
  destruct (2000 <? _).
  { left. unfold swallow, try_except, send_text, ret.
    destruct (send_fails env); split; assumption. }
  destruct (keeps_log_throttle settings sess env
              (client_id (parse int_of_str env f)) (rebind f w)) as (Tc & Tl & _).
  assert (Hh : forall w1, lists w1 = lists w -> history w1 = history w).
  { intros w1 E. unfold history, list_at. now rewrite E. }
  destruct (throttle _ _ _ _ _) as [[[|]|] w1]; cbn [fst snd] in Tc, Tl |- *.
  - destruct (publish_event_log sess env (parse int_of_str env f) w1)
      as [(_ & Pc & Pl)|(Pr & Pc & Ph)].
    + left. split; congruence.
    + right. rewrite Pc, Tc, Rc. repeat split; [assumption|].
      intros F1 F2. rewrite (Ph F1 F2), (Hh w1); [reflexivity|congruence].
  - left. split; congruence.
  - destruct (publish_event_log sess env (parse int_of_str env f) w1)
      as [(_ & Pc & Pl)|(Pr & Pc & Ph)].
    + left. split; congruence.
    + right. rewrite Pc, Tc, Rc. repeat split; [assumption|].
      intros F1 F2. rewrite (Ph F1 F2), (Hh w1); [reflexivity|congruence].
Qed.

(** The messages a run of the loop publishes, newest first, with what
    each carries and what the history list becomes. *)
Lemma writer_log inputs : forall w,
  exists new,
    channel (snd (run inputs w)) = on_channel new ++ channel w
    /\ Forall (fun e => ev_user e = display_name sess) new
    /\ (new = [] -> lists (snd (run inputs w)) = lists w)
    /\ (history_store_up inputs ->
        history (snd (run inputs w)) = take 50 (new ++ history w)
        \/ (new = [] /\ history (snd (run inputs w)) = history w)).
Proof.
  induction inputs as [|[env f] rest IH]; intros w.
  { exists []. repeat split; auto. }
  cbn [writer].
  pose proof (writer_step_log env f w) as S. cbv zeta in S.
  destruct (step env f w) as [[[]|] w1] eqn:E; cbn [fst snd] in S.
  - destruct (IH w1) as (new & Hc & Hu & Hl & Hh).
    destruct S as [[Sc Sl]|(_ & Sc & Sh)].
    + exists new. rewrite Hc, Sc. repeat split; [assumption| |].
      * intros N. rewrite (Hl N). assumption.
      * intros Hup. inversion Hup as [|? ? _ Hrest]; subst.
        unfold history, list_at in *. rewrite <- Sl. apply (Hh Hrest).
    + exists (new ++ [make_event sess env (parse int_of_str env f)]).
      rewrite Hc, Sc. unfold on_channel. rewrite map_app, <- app_assoc.
      repeat split.
      * apply Forall_app. split; [assumption|]. now constructor.
      * intros N. now destruct new.
      * intros Hup. inversion Hup as [|? ? [F1 F2] Hrest]; subst.
        left. rewrite <- app_assoc. cbn [app].
        destruct (Hh Hrest) as [H|[N H]].
        -- rewrite H, (Sh F1 F2). apply take_app_take.
        -- subst new. cbn [app]. rewrite H. apply (Sh F1 F2).
  - destruct S as [[Sc Sl]|(Sr & _)]; [|discriminate].
    exists []. repeat split; auto.
    intros _. right. split; [reflexivity|].
    unfold history, list_at. cbn [snd]. now rewrite Sl.
Qed.

(** C2, amended: through any run of the loop in which [LPUSH] and
    [LTRIM] are answered in every iteration, a history list of at most
    50 entries stays at most 50 long, and it holds the first 50 of the
    messages published in the run, newest first, followed by the
    entries it held before; once 50 or more have been published it is
    exactly the last 50 published, newest first. *)
Theorem history_bounded_newest_first (inputs : list (Env * Frame)) (w : World) :
  history_store_up inputs ->
  (length (history w) <= 50)%nat ->
  exists new,
    channel (snd (run inputs w)) = on_channel new ++ channel w
    /\ history (snd (run inputs w)) = take 50 (new ++ history w)
    /\ (length (history (snd (run inputs w))) <= 50)%nat
    /\ ((50 <= length new)%nat ->
        history (snd (run inputs w)) = take 50 new).
Proof.
  intros Hup Hlen.
  destruct (writer_log inputs w) as (new & Hc & _ & _ & Hh).
  exists new. split; [assumption|].
  assert (E : history (snd (run inputs w)) = take 50 (new ++ history w)).
  { destruct (Hh Hup) as [H|[N H]]; [assumption|].
    subst new. cbn [app]. rewrite H. symmetry. apply take_ge. assumption. }
  split; [assumption|]. split.
  - rewrite E, length_take. lia.
  - intros L. rewrite E. apply take_app_le. assumption.
Qed.

End Log.

(** ** The client-supplied fields the relay reads (lines 84-89, 157) *)

Lemma payload_blind_ret {A} (a : A) : payload_blind (ret a).
Proof. intros w q. reflexivity. Qed.

Lemma payload_blind_bind {A B} (m : M A) (k : A -> M B) :
  payload_blind m -> (forall a, payload_blind (k a)) -> payload_blind (bind m k).
Proof.
  intros Hm Hk w q. unfold bind. rewrite Hm.
  destruct (m w) as [[a|] w1]; cbn [fst snd]; [apply Hk|reflexivity].
Qed.

Lemma payload_blind_swallow (m : M unit) :
  payload_blind m -> payload_blind (swallow m).
Proof.
  intros Hm w q. unfold swallow, try_except, ret. rewrite Hm.
  destruct (m w) as [[a|] w1]; reflexivity.
Qed.

Lemma payload_blind_send env r : payload_blind (send_text env r).
Proof. intros w q. unfold send_text. destruct (send_fails env); reflexivity. Qed.

Lemma payload_blind_ttl env op k : payload_blind (redis_ttl env op k).
Proof.
  intros w q. unfold redis_ttl, redis_call. cbn [kv set_payload].
  destruct (redis_fails env op); [reflexivity|].
  destruct (lookup_live (now env) k (kv w)) as [[v [x|]]|]; reflexivity.
Qed.

Lemma payload_blind_incr env op k : payload_blind (redis_incr env op k).
Proof.
  intros w q. unfold redis_incr, redis_call. cbn [kv set_payload].
  destruct (redis_fails env op); [reflexivity|].
  destruct (lookup_live (now env) k (kv w)) as [[v x]|]; reflexivity.
Qed.

Lemma payload_blind_expire env op k s : payload_blind (redis_expire env op k s).
Proof.
  intros w q. unfold redis_expire, redis_call. cbn [kv set_payload].
  destruct (redis_fails env op); [reflexivity|].
  destruct (lookup_live (now env) k (kv w)) as [[v x]|]; reflexivity.
Qed.

Lemma payload_blind_exists env op k : payload_blind (redis_exists env op k).
Proof.
  intros w q. unfold redis_exists, redis_call. cbn [kv set_payload].
  destruct (redis_fails env op); [reflexivity|].
  destruct (lookup_live (now env) k (kv w)) as [[v x]|]; reflexivity.
Qed.

Lemma payload_blind_set env op k v s : payload_blind (redis_set env op k v s).
Proof.
  intros w q. unfold redis_set, redis_call.
  destruct (redis_fails env op); reflexivity.
Qed.

Lemma payload_blind_delete env op k : payload_blind (redis_delete env op k).
Proof.
  intros w q. unfold redis_delete, redis_call.
  destruct (redis_fails env op); reflexivity.
Qed.

Lemma payload_blind_publish env op c e : payload_blind (redis_publish env op c e).
Proof.
  intros w q. unfold redis_publish, redis_call.
  destruct (redis_fails env op); reflexivity.
Qed.

Lemma payload_blind_lpush env op k e : payload_blind (redis_lpush env op k e).
Proof.
  intros w q. unfold redis_lpush, redis_call.
  destruct (redis_fails env op); reflexivity.
Qed.

Lemma payload_blind_ltrim env op k n : payload_blind (redis_ltrim env op k n).
Proof.
  intros w q. unfold redis_ltrim, redis_call. cbn [lists set_payload].
  destruct (redis_fails env op); [reflexivity|].
  destruct (lists w !! k); reflexivity.
Qed.

Lemma payload_blind_first_expire (c : Z) env op k s :
  payload_blind
    (if c =? 1 then (_ <- redis_expire env op k s ;; ret tt) else ret tt).
Proof.
  destruct (c =? 1); [|apply payload_blind_ret].
  apply payload_blind_bind; [apply payload_blind_expire|].
  intros; apply payload_blind_ret.
Qed.

Lemma payload_blind_reply {A} env r (a : A) :
  payload_blind (swallow (send_text env r) ;;; ret a).
Proof.
  apply payload_blind_bind; [|intros; apply payload_blind_ret].
  apply payload_blind_swallow, payload_blind_send.
Qed.

Lemma payload_blind_escalate sess env cid : payload_blind (escalate sess env cid).
Proof.
  unfold escalate.
  apply payload_blind_bind; [apply payload_blind_incr|intros strikes].
  apply payload_blind_bind; [apply payload_blind_first_expire|intros _].
  destruct (3 <=? strikes);
    (apply payload_blind_bind; [apply payload_blind_set|intros _]).
  - apply payload_blind_reply.
  - apply payload_blind_ret.
Qed.

Lemma payload_blind_publish_event sess env p :
  payload_blind (publish_event sess env p).
Proof.
  unfold publish_event, persist.
  apply payload_blind_bind; [apply payload_blind_publish|intros _].
  apply payload_blind_swallow.
  apply payload_blind_bind; [apply payload_blind_lpush|intros _].
  apply payload_blind_ltrim.
Qed.

Lemma cf_only_blind {A} (m : M A) : payload_blind m -> cf_only m.
Proof.
  intros Hm w d1 d2 _. rewrite !Hm. split; [reflexivity|].
  exists (snd (m w)). split; reflexivity.
Qed.

Lemma cf_only_bind {A B} (m : M A) (k : A -> M B) :
  cf_only m -> (forall a, cf_only (k a)) -> cf_only (bind m k).
Proof.
  intros Hm Hk w d1 d2 Hcf. unfold bind.
  destruct (Hm w d1 d2 Hcf) as (Hr & w' & H1 & H2).
  destruct (m (set_payload (Some (LDict d1)) w)) as [r1 w1].
  destruct (m (set_payload (Some (LDict d2)) w)) as [r2 w2].
  cbn [fst snd] in *. subst r2 w1 w2.
  destruct r1 as [a|]; [apply (Hk a w' d1 d2 Hcf)|].
  split; [reflexivity|]. exists w'. split; reflexivity.
Qed.

Lemma cf_only_payload_get_cf : cf_only payload_get_cf.
Proof.
  intros w d1 d2 Hcf. unfold payload_get_cf. cbn [payload set_payload fst snd].
  rewrite Hcf. split; [reflexivity|]. exists w. split; reflexivity.
Qed.

Lemma cf_only_challenge_gate settings sess env cid rc :
  cf_only (challenge_gate settings sess env cid rc).
Proof.
  unfold challenge_gate.
  apply cf_only_bind; [apply cf_only_payload_get_cf|intros cf_token].
  apply cf_only_blind.
  destruct (negb (rc =? 0)); [|apply payload_blind_ret].
  destruct (negb _); [apply payload_blind_reply|].
  apply payload_blind_bind; [|intros; apply payload_blind_ret].
  apply payload_blind_swallow, payload_blind_delete.
Qed.

Lemma cf_only_throttle settings sess env cid :
  cf_only (throttle settings sess env cid).
Proof.
  unfold throttle.
  apply cf_only_bind; [apply cf_only_blind, payload_blind_ttl|intros ttl].
  destruct (negb (ttl =? 0) && (0 <? ttl));
    [apply cf_only_blind, payload_blind_reply|].
  apply cf_only_bind; [apply cf_only_blind, payload_blind_incr|intros cnt].
  apply cf_only_bind;
    [apply cf_only_blind, payload_blind_first_expire|intros _].
  apply cf_only_bind; [apply cf_only_blind, payload_blind_exists|intros rq].
  apply cf_only_bind.
  - apply cf_only_blind.
    destruct (5 <? cnt); [apply payload_blind_escalate|apply payload_blind_ret].
  - intros [rc|]; [apply cf_only_challenge_gate|].
    apply cf_only_blind, payload_blind_ret.
Qed.

Section UserFields.
Variable int_of_str : string -> option Z.
Variable settings : Settings.
Variable sess : Session.

Local Abbreviation step := (writer_step int_of_str settings sess).
Local Abbreviation run := (writer int_of_str settings sess).

Lemma same_but_user_insert (d : gmap string pyval) a b :
  same_but_user (<["user" := a]> d) (<["user" := b]> d).
Proof.
  intros k N1 N2. rewrite !lookup_insert_ne by congruence. reflexivity.
Qed.

Lemma same_but_user_get d1 d2 k :
  same_but_user d1 d2 -> k <> "user" -> k <> "username" ->
  dict_get d1 k = dict_get d2 k.
Proof. intros H N1 N2. unfold dict_get. now rewrite (H k N1 N2). Qed.

(** C10, amended: every message a run of the loop publishes carries
    the display name computed at connect time; and two frames that are
    JSON objects differing only in their [user] and [username] fields,
    with a [ts] that [int] accepts, lead to the same result, the same
    published message and the same Redis, channel and outbox. *)
Theorem user_fields_ignored :
  (forall inputs w, exists new,
      channel (snd (run inputs w)) = on_channel new ++ channel w
      /\ Forall (fun e => ev_user e = display_name sess) new)
  /\ (forall env raw1 raw2 d1 d2 w,
        same_but_user d1 d2 ->
        py_int int_of_str (py_or (dict_get d1 "ts") (PInt 0)) <> None ->
        let r1 := step env {| raw := raw1; loads := Some (LDict d1) |} w in
        let r2 := step env {| raw := raw2; loads := Some (LDict d2) |} w in
        fst r1 = fst r2 /\ observable (snd r1) = observable (snd r2)).
Proof.
  split.
  { intros inputs w. destruct (writer_log int_of_str settings sess inputs w)
      as (new & Hc & Hu & _). exists new. split; assumption. }
  intros env raw1 raw2 d1 d2 w Hd Hts. cbv zeta.
  assert (Etext : dict_get d1 "text" = dict_get d2 "text")
    by (apply same_but_user_get; [assumption|discriminate..]).
  assert (Ets : dict_get d1 "ts" = dict_get d2 "ts")
    by (apply same_but_user_get; [assumption|discriminate..]).
  assert (Eid : dict_get d1 "id" = dict_get d2 "id")
    by (apply same_but_user_get; [assumption|discriminate..]).
  assert (Ecf : dict_get d1 "cf" = dict_get d2 "cf")
    by (apply same_but_user_get; [assumption|discriminate..]).
  assert (Ep : parse int_of_str env {| raw := raw1; loads := Some (LDict d1) |}
               = parse int_of_str env {| raw := raw2; loads := Some (LDict d2) |}).
  { unfold parse. cbn [loads]. rewrite <- Etext, <- Ets, <- Eid.
    destruct (py_int _ _) eqn:E; [reflexivity|]. now contradiction Hts. }
  rewrite !writer_step_unfold. cbv zeta. rewrite <- Ep.
  set (p := parse int_of_str env {| raw := raw1; loads := Some (LDict d1) |}).
  unfold rebind. cbn [loads].
  destruct (is_empty (msg_text p)); [split; reflexivity|].
  destruct (no_display_name sess); [split; reflexivity|].
  destruct (2000 <? len (msg_text p)).
  { rewrite !(payload_blind_swallow _ (payload_blind_send env _)).
    split; reflexivity. }
  destruct (cf_only_throttle settings sess env (client_id p) w d1 d2 Ecf)
    as (Hr & w' & H1 & H2).
  destruct (throttle settings sess env (client_id p)
              (set_payload (Some (LDict d1)) w)) as [r1 w1].
  destruct (throttle settings sess env (client_id p)
              (set_payload (Some (LDict d2)) w)) as [r2 w2].
  cbn [fst snd] in Hr, H1, H2. subst r2 w1 w2.
  destruct r1 as [[|]|]; rewrite ?payload_blind_publish_event;
    split; reflexivity.
Qed.

End UserFields.

(** C10, witness. *)
Lemma user_fields_ignored_witness :
  observable (snd (writer_step int_of_digits default_settings alice (env_at 100)
                     (user_frame "eve") empty_world))
  = observable (snd (writer_step int_of_digits default_settings alice (env_at 100)
                       (user_frame "bob") empty_world)).
Proof.
  apply (proj2 (user_fields_ignored int_of_digits default_settings alice)
           (env_at 100) _ _ _ _ empty_world).
  - apply same_but_user_insert.
  - vm_compute. discriminate.
Defined.

(** C10 as stated fails: when [ts] is not a number the [except] branch
    of line 90 makes the raw frame the text, so of two frames differing
    only in the [user] field each is published with its own text. *)
Lemma user_field_leaks_through_fallback :
  let r1 := writer_step int_of_digits default_settings alice (env_at 100)
              (bad_ts_frame "eve") empty_world in
  let r2 := writer_step int_of_digits default_settings alice (env_at 100)
              (bad_ts_frame "bob") empty_world in
  (exists d1 d2,
      loads (bad_ts_frame "eve") = Some (LDict d1)
      /\ loads (bad_ts_frame "bob") = Some (LDict d2)
      /\ same_but_user d1 d2)
  /\ map (fun m => ev_text (snd m)) (channel (snd r1)) = [raw (bad_ts_frame "eve")]
  /\ map (fun m => ev_text (snd m)) (channel (snd r2)) = [raw (bad_ts_frame "bob")]
  /\ channel (snd r1) <> channel (snd r2).
Proof.
  split; [|split; [|split]].
  - eexists _, _. split; [reflexivity|]. split; [reflexivity|].
    apply same_but_user_insert.
  - vm_compute. reflexivity.
  - vm_compute. reflexivity.
  - vm_compute. discriminate.
Qed.

(** ** The Redis commands when they are answered *)

Lemma bind_ok {A B} (m : M A) (k : A -> M B) w a w' :
  m w = (Ret a, w') -> bind m k w = k a w'.
Proof. intros H. unfold bind. now rewrite H. Qed.

Lemma redis_ttl_ok env op k w :
  redis_fails env op = false ->
  redis_ttl env op k w = (Ret (ttl_of (now env) k (kv w)), w).
Proof.
  intros F. unfold redis_ttl, redis_call, ttl_of. rewrite F.
  destruct (lookup_live (now env) k (kv w)) as [[v [x|]]|]; reflexivity.
Qed.

Lemma redis_incr_ok env op k w :
  redis_fails env op = false ->
  redis_incr env op k w
  = (Ret (next_value (now env) k (kv w)),
     set_kv (insert k (incr_entry (now env) k (kv w))) w).
Proof.
  intros F. unfold redis_incr, redis_call, next_value, incr_entry. rewrite F.
  destruct (lookup_live (now env) k (kv w)) as [[v x]|]; reflexivity.
Qed.

Lemma redis_exists_ok env op k w :
  redis_fails env op = false ->
  redis_exists env op k w = (Ret (exists_of (now env) k (kv w)), w).
Proof.
  intros F. unfold redis_exists, redis_call, exists_of. rewrite F.
  destruct (lookup_live (now env) k (kv w)) as [[v x]|]; reflexivity.
Qed.

Lemma redis_set_ok env op k v s w :
  redis_fails env op = false ->
  redis_set env op k v s w
  = (Ret tt, set_kv (insert k (v, Some (now env + s))) w).
Proof. intros F. unfold redis_set, redis_call. now rewrite F. Qed.

Lemma redis_delete_ok env op k w :
  redis_fails env op = false ->
  redis_delete env op k w = (Ret tt, set_kv (delete k) w).
Proof. intros F. unfold redis_delete, redis_call. now rewrite F. Qed.

(** Lines 130-132 and 136-138: [INCR], then [EXPIRE] on a first count. *)
Lemma incr_then_expire_ok env op1 op2 k s {B} (cont : Z -> M B) w :
  redis_fails env op1 = false -> redis_fails env op2 = false ->
  (c <- redis_incr env op1 k ;;
   (if c =? 1 then (_ <- redis_expire env op2 k s ;; ret tt) else ret tt) ;;;
   cont c) w
  = cont (next_value (now env) k (kv w))
         (with_kv (count_up (now env) k s (kv w)) w).
Proof.
  intros F1 F2. rewrite (bind_ok _ _ _ _ _ (redis_incr_ok env op1 k w F1)).
  unfold count_up. destruct (next_value (now env) k (kv w) =? 1).
  - unfold bind at 1. unfold bind at 1.
    unfold redis_expire, redis_call, expire_map, ret. rewrite F2.
    cbn [kv set_kv].
    destruct (lookup_live (now env) k _) as [[v x]|]; reflexivity.
  - reflexivity.
Qed.

Lemma count_up_lookup_ne t k s k' (m : gmap string (Z * option Z)) :
  k <> k' -> count_up t k s m !! k' = m !! k'.
Proof.
  intros N. unfold count_up, expire_map.
  destruct (next_value t k m =? 1).
  - destruct (lookup_live t k _) as [[v x]|];
      rewrite ?lookup_insert_ne by assumption; reflexivity.
  - now rewrite lookup_insert_ne.
Qed.

Lemma lookup_live_count_up_ne t t' k s k' (m : gmap string (Z * option Z)) :
  k <> k' -> lookup_live t' k' (count_up t k s m) = lookup_live t' k' m.
Proof. intros N. unfold lookup_live. now rewrite count_up_lookup_ne. Qed.

Lemma reply_then_continue {A} env r (a : A) w :
  (swallow (send_text env r) ;;; ret a) w = (Ret a, maybe_send env r w).
Proof.
  unfold swallow, try_except, send_text, bind, ret, maybe_send.
  destruct (send_fails env); reflexivity.
Qed.

(** ** The rate limiter when Redis answers (lines 108-177) *)

Section Throttle.
Variable settings : Settings.
Variable sess : Session.

Local Abbreviation bk := (block_key sess).
Local Abbreviation ck := (count_key sess).
Local Abbreviation sk := (strikes_key sess).
Local Abbreviation chk := (challenge_key sess).

Lemma escalate_fault_free env cid w :
  fault_free env ->
  escalate sess env cid w =
  let strikes := next_value (now env) sk (kv w) in
  let m2 := count_up (now env) sk 120 (kv w) in
  if 3 <=? strikes then
    (Ret None,
     maybe_send env (ErrBlocked blocked_minute 60 cid)
       (with_kv (<[bk := (1, Some (now env + 60))]> m2) w))
  else
    (Ret (Some 1), with_kv (<[chk := (1, Some (now env + 120))]> m2) w).
Proof.
  intros F. unfold escalate.
  rewrite incr_then_expire_ok by apply F. cbv zeta.
  destruct (3 <=? next_value (now env) sk (kv w)).
  - rewrite (bind_ok _ _ _ _ _ (redis_set_ok env _ _ _ _ _ (F _))).
    rewrite reply_then_continue. reflexivity.
  - rewrite (bind_ok _ _ _ _ _ (redis_set_ok env _ _ _ _ _ (F _))).
    reflexivity.
Qed.

Lemma challenge_gate_fault_free env cid rc w :
  redis_fails env OpDeleteChallenge = false ->
  challenge_gate settings sess env cid rc w =
  match payload w with
  | Some (LDict d) =>
      let cf_token := dict_get d "cf" in
      if negb (rc =? 0) then
        if (if truthy cf_token
            then verify_turnstile settings env cf_token (client_host sess)
            else false)
        then (Ret Proceed, set_kv (delete chk) w)
        else (Ret Continue, maybe_send env (ErrChallenge cid) w)
      else (Ret Proceed, w)
  | _ => (Exc, w)
  end.
Proof.
  intros F. unfold challenge_gate, payload_get_cf. unfold bind at 1.
  destruct (payload w) as [[d|]|]; [|reflexivity..]. cbv zeta.
  destruct (negb (rc =? 0)); [|reflexivity].
  destruct (if truthy _ then _ else _); cbn [negb].
  - unfold swallow, try_except, bind, ret.
    rewrite (redis_delete_ok env _ _ _ F). reflexivity.
  - apply reply_then_continue.
Qed.

Lemma throttle_fault_free env cid w :
  fault_free env ->
  throttle settings sess env cid w =
  let t := now env in
  if blocked t bk (kv w) then
    (Ret Continue,
     maybe_send env
       (ErrBlocked (blocked_now (ttl_of t bk (kv w))) (ttl_of t bk (kv w)) cid) w)
  else
    let cnt := next_value t ck (kv w) in
    let m1 := count_up t ck 10 (kv w) in
    if 5 <? cnt then
      let strikes := next_value t sk m1 in
      let m2 := count_up t sk 120 m1 in
      if 3 <=? strikes then
        (Ret Continue,
         maybe_send env (ErrBlocked blocked_minute 60 cid)
           (with_kv (<[bk := (1, Some (t + 60))]> m2) w))
      else
        challenge_gate settings sess env cid 1
          (with_kv (<[chk := (1, Some (t + 120))]> m2) w)
    else
      challenge_gate settings sess env cid (exists_of t chk m1) (with_kv m1 w).
Proof.
  intros F. unfold throttle.
  rewrite (bind_ok _ _ _ _ _ (redis_ttl_ok env _ _ _ (F _))).
  cbv zeta. fold (blocked (now env) bk (kv w)).
  destruct (blocked (now env) bk (kv w)); [apply reply_then_continue|].
  rewrite incr_then_expire_ok by apply F.
  rewrite (bind_ok _ _ _ _ _ (redis_exists_ok env _ _ _ (F _))).
  cbn [kv with_kv set_kv].
  destruct (5 <? next_value (now env) ck (kv w)).
  - unfold bind at 1. rewrite (escalate_fault_free env cid _ F).
    cbv zeta. cbn [kv with_kv set_kv].
    destruct (3 <=? _); reflexivity.
  - reflexivity.
Qed.

End Throttle.

Lemma next_value_count_up_ne t k s k' (m : gmap string (Z * option Z)) :
  k <> k' -> next_value t k' (count_up t k s m) = next_value t k' m.
Proof. intros N. unfold next_value. now rewrite lookup_live_count_up_ne. Qed.

Lemma exists_of_count_up_ne t k s k' (m : gmap string (Z * option Z)) :
  k <> k' -> exists_of t k' (count_up t k s m) = exists_of t k' m.
Proof. intros N. unfold exists_of. now rewrite lookup_live_count_up_ne. Qed.


Lemma maybe_send_kv env r w : kv (maybe_send env r w) = kv w.
Proof. unfold maybe_send. now destruct (send_fails env). Qed.

Lemma maybe_send_channel env r w : channel (maybe_send env r w) = channel w.
Proof. unfold maybe_send. now destruct (send_fails env). Qed.

Lemma maybe_send_lists env r w : lists (maybe_send env r w) = lists w.
Proof. unfold maybe_send. now destruct (send_fails env). Qed.

Lemma rebind_kv f w : kv (rebind f w) = kv w.
Proof. unfold rebind. now destruct (loads f). Qed.

Section Escalation.
Variable int_of_str : string -> option Z.
Variable settings : Settings.
Variable sess : Session.

Local Abbreviation step := (writer_step int_of_str settings sess).
Local Abbreviation bk := (block_key sess).
Local Abbreviation ck := (count_key sess).
Local Abbreviation sk := (strikes_key sess).
Local Abbreviation chk := (challenge_key sess).

(** A frame that passes validation goes to the rate limiter; it is
    published unless the rate limiter says [continue]. *)
Lemma writer_step_valid env f w :
  valid int_of_str sess env f = true ->
  step env f w =
  match throttle settings sess env (client_id (parse int_of_str env f))
          (rebind f w) with
  | (Ret Continue, w1) => (Ret tt, w1)
  | (_, w1) => publish_event sess env (parse int_of_str env f) w1
  end.
Proof.
  unfold valid, rejected_at_validation. cbv zeta. intros V.
  apply negb_true_iff in V. apply orb_false_iff in V as [V V3].
  apply orb_false_iff in V as [V1 V2].
  rewrite writer_step_unfold. cbv zeta. rewrite V1, V2, V3.
  destruct (throttle _ _ _ _ _) as [[[|]|] w1]; reflexivity.
Qed.



End Escalation.

(** ** Frames within the burst limit (lines 129-134) *)

Lemma publish_event_kv sess env p w :
  kv (snd (publish_event sess env p w)) = kv w.
Proof.
  unfold publish_event, persist, swallow, try_except, bind, ret,
    redis_publish, redis_lpush, redis_ltrim, redis_call.
  destruct (redis_fails env OpPublish); [reflexivity|].
  destruct (redis_fails env OpLpush); [reflexivity|].
  destruct (redis_fails env OpLtrim); [reflexivity|]. simpl.
  destruct (_ !! HISTORY_KEY); reflexivity.
Qed.

Lemma publish_event_ok sess env p w :
  redis_fails env OpPublish = false ->
  fst (publish_event sess env p w) = Ret tt
  /\ channel (snd (publish_event sess env p w))
     = (CHANNEL_NAME, make_event sess env p) :: channel w.
Proof.
  intros F.
  destruct (publish_event_log sess env p w) as [(E & _)|(E & C & _)].
  - exfalso. unfold publish_event, bind, redis_publish, redis_call in E.
    rewrite F in E.
    pose proof (persist_returns env (make_event sess env p)
                  (add_channel CHANNEL_NAME (make_event sess env p) w)) as P.
    rewrite P in E. discriminate.
  - split; assumption.
Qed.

Lemma absent_not_live t k (m : gmap string (Z * option Z)) :
  m !! k = None -> lookup_live t k m = None.
Proof. intros H. unfold lookup_live. now rewrite H. Qed.

Lemma count_up_first t k s (m : gmap string (Z * option Z)) :
  lookup_live t k m = None ->
  next_value t k m = 1 /\ count_up t k s m = <[k := (1, Some (t + s))]> m.
Proof.
  intros H. unfold count_up, next_value, incr_entry, expire_map. rewrite H.
  split; [reflexivity|]. cbn [Z.eqb Pos.eqb].
  rewrite lookup_live_insert_eq. cbn [live snd].
  apply insert_insert_eq.
Qed.

Lemma count_up_next t k s c x (m : gmap string (Z * option Z)) :
  m !! k = Some (c, Some x) -> t < x -> 1 <= c ->
  next_value t k m = c + 1 /\ count_up t k s m = <[k := (c + 1, Some x)]> m.
Proof.
  intros H L C.
  assert (E : lookup_live t k m = Some (c, Some x)).
  { unfold lookup_live, live. rewrite H. cbn [snd].
    apply Z.ltb_lt in L. now rewrite L. }
  unfold count_up, next_value, incr_entry. rewrite E.
  split; [reflexivity|].
  replace (c + 1 =? 1) with false; [reflexivity|].
  symmetry. apply Z.eqb_neq. lia.
Qed.

Lemma expired_not_live t k c x (m : gmap string (Z * option Z)) :
  m !! k = Some (c, Some x) -> x <= t -> lookup_live t k m = None.
Proof.
  intros H L. unfold lookup_live, live. rewrite H. cbn [snd].
  apply Z.ltb_ge in L. now rewrite L.
Qed.

Section Burst.
Variable int_of_str : string -> option Z.
Variable settings : Settings.
Variable sess : Session.

Local Abbreviation step := (writer_step int_of_str settings sess).
Local Abbreviation run := (writer int_of_str settings sess).
Local Abbreviation bk := (block_key sess).
Local Abbreviation ck := (count_key sess).
Local Abbreviation sk := (strikes_key sess).
Local Abbreviation chk := (challenge_key sess).

Lemma calm_not_blocked t m : calm sess m -> blocked t bk m = false.
Proof.
  intros (B & _). unfold blocked, ttl_of.
  now rewrite (absent_not_live _ _ _ B).
Qed.

Lemma calm_no_challenge t m : calm sess m -> exists_of t chk m = 0.
Proof.
  intros (_ & _ & C). unfold exists_of.
  now rewrite (absent_not_live _ _ _ C).
Qed.

Lemma calm_insert_count e m : calm sess m -> calm sess (<[ck := e]> m).
Proof.
  intros (B & S & C). unfold calm.
  rewrite !lookup_insert_ne; [auto| apply count_challenge
                              | apply count_strikes
                              | apply not_eq_sym, block_count].
Qed.

(** A frame that passes validation, from a sender who is not blocked
    and has no challenge pending, counted at most fifth in its window:
    it is published, nothing is sent back, and only the count key
    changes. *)
Lemma within_limit_step env f w :
  sound int_of_str sess (env, f) ->
  blocked (now env) bk (kv w) = false ->
  exists_of (now env) chk (kv w) = 0 ->
  next_value (now env) ck (kv w) <= 5 ->
  let r := step env f w in
  fst r = Ret tt
  /\ kv (snd r) = count_up (now env) ck 10 (kv w)
  /\ outbox (snd r) = outbox w
  /\ channel (snd r) = (CHANNEL_NAME, event_of int_of_str sess (env, f)) :: channel w.
Proof.
  intros [V F] B C L. cbn [fst snd] in V, F. cbv zeta.
  rewrite (writer_step_valid _ _ _ _ _ _ V).
  rewrite (throttle_fault_free _ _ _ _ _ F). cbv zeta.
  rewrite rebind_kv, B. apply Z.ltb_ge in L. rewrite L.
  rewrite (challenge_gate_fault_free _ _ _ _ _ _ (F _)).
  rewrite exists_of_count_up_ne by apply count_challenge.
  rewrite C. cbn [Z.eqb negb].
  set (w1 := with_kv (count_up (now env) ck 10 (kv w)) (rebind f w)).
  destruct (publish_event_ok sess env (parse int_of_str env f) w1 (F _))
    as [R Ch].
  assert (K : kv (snd (publish_event sess env (parse int_of_str env f) w1))
              = count_up (now env) ck 10 (kv w))
    by (rewrite publish_event_kv; reflexivity).
  assert (O : outbox (snd (publish_event sess env (parse int_of_str env f) w1))
              = outbox w)
    by (rewrite publish_event_outbox; unfold w1;
        cbn [outbox with_kv set_kv]; apply rebind_outbox).
  assert (H : channel (snd (publish_event sess env (parse int_of_str env f) w1))
              = (CHANNEL_NAME, event_of int_of_str sess (env, f)) :: channel w).
  { rewrite Ch. unfold w1. cbn [channel with_kv set_kv].
    destruct (rebind_log f w) as [Rc _]. now rewrite Rc. }
  destruct (payload w1) as [[d|]|]; cbv zeta; repeat split; assumption.
Qed.

End Burst.

Lemma writer_app int_of_str settings sess l1 l2 w :
  writer int_of_str settings sess (l1 ++ l2) w
  = if fst (writer int_of_str settings sess l1 w)
    then writer int_of_str settings sess l2
           (snd (writer int_of_str settings sess l1 w))
    else writer int_of_str settings sess l1 w.
Proof.
  revert w. induction l1 as [|[env f] l1 IH]; intros w; [reflexivity|].
  cbn [app writer].
  destruct (writer_step int_of_str settings sess env f w) as [[[]|] w1];
    [apply IH|reflexivity].
Qed.

Section SixthMessage.
Variable int_of_str : string -> option Z.
Variable settings : Settings.
Variable sess : Session.

Local Abbreviation step := (writer_step int_of_str settings sess).
Local Abbreviation run := (writer int_of_str settings sess).
Local Abbreviation bk := (block_key sess).
Local Abbreviation ck := (count_key sess).
Local Abbreviation sk := (strikes_key sess).
Local Abbreviation chk := (challenge_key sess).

(** Frames counted second to fifth in a window that is still open. *)
Lemma burst_prefix l : forall w c x,
  kv w !! ck = Some (c, Some x) -> 1 <= c ->
  c + Z.of_nat (length l) <= 5 ->
  calm sess (kv w) ->
  Forall (sound int_of_str sess) l ->
  Forall (fun i => arrival i < x) l ->
  fst (run l w) = true
  /\ kv (snd (run l w)) = <[ck := (c + Z.of_nat (length l), Some x)]> (kv w)
  /\ outbox (snd (run l w)) = outbox w
  /\ channel (snd (run l w)) = published int_of_str sess l ++ channel w.
Proof.
  induction l as [|[env f] rest IH]; intros w c x Hc C1 C5 Hcalm Hs Ht.
  { cbn [writer fst snd length Z.of_nat]. rewrite Z.add_0_r.
    repeat split. symmetry. now apply insert_id. }
  inversion Hs as [|? ? S1 Srest]; subst.
  inversion Ht as [|? ? T1 Trest]; subst.
  unfold arrival in T1. cbn [fst] in T1.
  cbn [length] in C5. rewrite Nat2Z.inj_succ in C5.
  destruct (count_up_next (now env) ck 10 c x (kv w) Hc T1 C1) as [Nv Cu].
  destruct (within_limit_step int_of_str settings sess env f w S1
              (calm_not_blocked sess _ _ Hcalm)
              (calm_no_challenge sess _ _ Hcalm)) as (R & K & O & Ch).
  { rewrite Nv. lia. }
  cbn [writer]. destruct (step env f w) as [[[]|] w1]; [|discriminate].
  cbn [fst snd] in K, O, Ch. rewrite Cu in K.
  destruct (IH w1 (c + 1) x) as (R' & K' & O' & Ch'); try assumption.
  - rewrite K. apply lookup_insert_eq.
  - lia.
  - lia.
  - rewrite K. now apply calm_insert_count.
  - split; [assumption|]. split; [|split].
    + rewrite K', K, insert_insert_eq. cbn [length].
      rewrite Nat2Z.inj_succ.
      replace (c + Z.succ (Z.of_nat (length rest)))
        with (c + 1 + Z.of_nat (length rest)) by lia.
      reflexivity.
    + congruence.
    + rewrite Ch', Ch. unfold published, on_channel. cbn [map rev].
      rewrite map_app, <- app_assoc. reflexivity.
Qed.

(** A violation that is not the third strike, in a frame that is a
    JSON object: the challenge key is set; the frame is published, and
    the key deleted, exactly when its [cf] token passes verification;
    otherwise the reply is [challenge_required]. *)
Lemma violation_step env f d w :
  sound int_of_str sess (env, f) ->
  loads f = Some (LDict d) ->
  blocked (now env) bk (kv w) = false ->
  5 < next_value (now env) ck (kv w) ->
  next_value (now env) sk (kv w) < 3 ->
  let cid := client_id (parse int_of_str env f) in
  let cf_token := dict_get d "cf" in
  let passes :=
    if truthy cf_token
    then verify_turnstile settings env cf_token (client_host sess)
    else false in
  let m3 := <[chk := (1, Some (now env + 120))]>
              (count_up (now env) sk 120 (count_up (now env) ck 10 (kv w))) in
  let r := step env f w in
  fst r = Ret tt
  /\ (passes = false ->
      kv (snd r) = m3
      /\ outbox (snd r) = outbox (maybe_send env (ErrChallenge cid) w)
      /\ channel (snd r) = channel w)
  /\ (passes = true ->
      kv (snd r) = delete chk m3
      /\ outbox (snd r) = outbox w
      /\ channel (snd r)
         = (CHANNEL_NAME, event_of int_of_str sess (env, f)) :: channel w).
Proof.
  intros [V F] Hl B C S. cbn [fst snd] in V, F. cbv zeta.
  rewrite (writer_step_valid _ _ _ _ _ _ V).
  rewrite (throttle_fault_free _ _ _ _ _ F). cbv zeta.
  rewrite rebind_kv, B. apply Z.ltb_lt in C. rewrite C.
  rewrite next_value_count_up_ne by apply count_strikes.
  apply Z.leb_gt in S. rewrite S.
  rewrite (challenge_gate_fault_free _ _ _ _ _ _ (F _)).
  assert (Hp : payload (rebind f w) = Some (LDict d))
    by (unfold rebind; now rewrite Hl).
  cbn [payload with_kv set_kv]. rewrite Hp. cbv zeta. cbn [Z.eqb negb].
  destruct (rebind_log f w) as [Rc _].
  destruct (if truthy (dict_get d "cf") then _ else false).
  - match goal with
    | |- context [publish_event sess env ?p ?w1] =>
        destruct (publish_event_ok sess env p w1 (F _)) as [R Ch];
        rewrite R, Ch, publish_event_kv, publish_event_outbox
    end.
    cbn [kv outbox channel with_kv set_kv]. rewrite Rc, rebind_outbox.
    split; [reflexivity|]. split; [discriminate|]. intros _.
    repeat split; reflexivity.
  - cbn [fst snd]. rewrite maybe_send_kv, maybe_send_channel.
    cbn [kv channel with_kv set_kv]. rewrite Rc.
    split; [reflexivity|]. split; [|discriminate]. intros _.
    repeat split. unfold maybe_send. destruct (send_fails env);
      cbn [outbox add_outbox with_kv set_kv]; now rewrite rebind_outbox.
Qed.

(** C1, amended: from a fresh rate-limit state, five frames that pass
    validation within 10 seconds are published; a sixth one in the same
    window, when it is a JSON object and Redis answers, is answered
    [challenge_required] and not published, unless it carries a [cf]
    token that passes verification, in which case it is published with
    no reply and the challenge key is gone. *)
Theorem sixth_message_challenged
    (e1 : Env) (f1 : Frame) (rest : list (Env * Frame))
    (e6 : Env) (f6 : Frame) (d : gmap string pyval) (w : World) :
  fresh sess (kv w) ->
  length rest = 4%nat ->
  Forall (sound int_of_str sess) (((e1, f1) :: rest) ++ [(e6, f6)]) ->
  Forall (fun i => arrival i < now e1 + 10) (rest ++ [(e6, f6)]) ->
  loads f6 = Some (LDict d) ->
  let w5 := snd (run ((e1, f1) :: rest) w) in
  let r := run (((e1, f1) :: rest) ++ [(e6, f6)]) w in
  let cid := client_id (parse int_of_str e6 f6) in
  let cf_token := dict_get d "cf" in
  let passes :=
    if truthy cf_token
    then verify_turnstile settings e6 cf_token (client_host sess)
    else false in
  fst r = true
  /\ channel w5 = published int_of_str sess ((e1, f1) :: rest) ++ channel w
  /\ outbox w5 = outbox w
  /\ (passes = false ->
      channel (snd r) = channel w5
      /\ outbox (snd r) = outbox (maybe_send e6 (ErrChallenge cid) w5)
      /\ kv (snd r) !! chk = Some (1, Some (now e6 + 120)))
  /\ (passes = true ->
      channel (snd r)
      = (CHANNEL_NAME, event_of int_of_str sess (e6, f6)) :: channel w5
      /\ outbox (snd r) = outbox w5
      /\ kv (snd r) !! chk = None).
Proof.
  intros [Hck Hcalm] Hlen Hs Ht Hl. cbv zeta.
  apply Forall_app in Hs as [Hs5 Hs6].
  inversion Hs5 as [|? ? S1 Srest]; subst.
  inversion Hs6 as [|? ? S6 _]; subst.
  apply Forall_app in Ht as [Trest T6].
  inversion T6 as [|? ? T6' _]; subst. unfold arrival in T6'. cbn [fst] in T6'.
  (* first frame *)
  destruct (count_up_first (now e1) ck 10 (kv w) (absent_not_live _ _ _ Hck))
    as [Nv Cu].
  destruct (within_limit_step int_of_str settings sess e1 f1 w S1
              (calm_not_blocked sess _ _ Hcalm)
              (calm_no_challenge sess _ _ Hcalm)) as (R1 & K1 & O1 & Ch1).
  { rewrite Nv. lia. }
  rewrite writer_app. cbn [writer].
  destruct (step e1 f1 w) as [[[]|] w1]; [|discriminate].
  cbn [fst snd] in K1, O1, Ch1. rewrite Cu in K1.
  (* second to fifth *)
  destruct (burst_prefix rest w1 1 (now e1 + 10)) as (R5 & K5 & O5 & Ch5);
    try assumption.
  { rewrite K1. apply lookup_insert_eq. }
  { lia. }
  { rewrite Hlen. lia. }
  { rewrite K1. now apply calm_insert_count. }
  rewrite R5. rewrite Hlen in K5. rewrite K1, insert_insert_eq in K5.
  cbn [Z.of_nat Pos.of_succ_nat Pos.succ Z.add Pos.add] in K5.
  set (w5 := snd (run rest w1)) in *.
  assert (Hcalm5 : calm sess (kv w5))
    by (rewrite K5; now apply calm_insert_count).
  assert (Hc5 : kv w5 !! ck = Some (5, Some (now e1 + 10)))
    by (rewrite K5; apply lookup_insert_eq).
  (* sixth *)
  destruct (count_up_next (now e6) ck 10 5 _ (kv w5) Hc5 T6') as [Nv6 _];
    [lia|].
  destruct (violation_step e6 f6 d w5 S6 Hl
              (calm_not_blocked sess _ _ Hcalm5)) as (R6 & Hno & Hyes).
  { rewrite Nv6. lia. }
  { destruct Hcalm5 as (_ & Hsk & _). unfold next_value.
    rewrite (absent_not_live _ _ _ Hsk). lia. }
  cbn [writer]. destruct (step e6 f6 w5) as [[[]|] w6]; [|discriminate].
  cbn [fst snd] in Hno, Hyes |- *.
  split; [reflexivity|]. split.
  { rewrite Ch5, Ch1. unfold published, on_channel. cbn [map rev].
    rewrite map_app, <- app_assoc. reflexivity. }
  split; [congruence|]. split.
  - intros P. destruct (Hno P) as (K & O & Ch).
    repeat split; [assumption..|]. rewrite K. apply lookup_insert_eq.
  - intros P. destruct (Hyes P) as (K & O & Ch).
    repeat split; [assumption..|]. rewrite K. apply lookup_delete_eq.
Qed.

End SixthMessage.

(** ** After a passing verification (lines 156-177) *)

(** A sender who is not blocked stays so as long as the block key is
    not written. *)
Lemma not_blocked_later t t' k (m m' : gmap string (Z * option Z)) :
  m' !! k = m !! k -> blocked t k m = false -> t <= t' ->
  blocked t' k m' = false.
Proof.
  intros H B L. unfold blocked, ttl_of, lookup_live, live in *. rewrite H.
  destruct (m !! k) as [[v [x|]]|]; cbn [snd] in *; try reflexivity.
  destruct (t <? x) eqn:E1.
  - apply Z.ltb_lt in E1. exfalso.
    apply andb_false_iff in B as [B|B].
    + apply negb_false_iff, Z.eqb_eq in B. lia.
    + apply Z.ltb_ge in B. lia.
  - apply Z.ltb_ge in E1.
    replace (t' <? x) with false; [reflexivity|].
    symmetry. apply Z.ltb_ge. lia.
Qed.

Section AfterVerification.
Variable int_of_str : string -> option Z.
Variable settings : Settings.
Variable sess : Session.

Local Abbreviation step := (writer_step int_of_str settings sess).
Local Abbreviation bk := (block_key sess).
Local Abbreviation ck := (count_key sess).
Local Abbreviation sk := (strikes_key sess).
Local Abbreviation chk := (challenge_key sess).

(** A frame whose token passes while a challenge is pending, and which
    is not a third strike: published, challenge key deleted, block key
    untouched. *)
Lemma passing_step env f d w :
  sound int_of_str sess (env, f) ->
  loads f = Some (LDict d) ->
  blocked (now env) bk (kv w) = false ->
  exists_of (now env) chk (kv w) = 1 ->
  (if truthy (dict_get d "cf")
   then verify_turnstile settings env (dict_get d "cf") (client_host sess)
   else false) = true ->
  next_value (now env) ck (kv w) <= 5 \/ next_value (now env) sk (kv w) < 3 ->
  let r := step env f w in
  fst r = Ret tt
  /\ kv (snd r) !! chk = None
  /\ kv (snd r) !! bk = kv w !! bk
  /\ outbox (snd r) = outbox w
  /\ channel (snd r)
     = (CHANNEL_NAME, event_of int_of_str sess (env, f)) :: channel w.
Proof.
  intros [V F] Hl B C P N. cbn [fst snd] in V, F. cbv zeta.
  rewrite (writer_step_valid _ _ _ _ _ _ V).
  rewrite (throttle_fault_free _ _ _ _ _ F). cbv zeta.
  rewrite rebind_kv, B.
  assert (Hp : payload (rebind f w) = Some (LDict d))
    by (unfold rebind; now rewrite Hl).
  destruct (rebind_log f w) as [Rc _].
  rewrite next_value_count_up_ne by apply count_strikes.
  rewrite exists_of_count_up_ne by apply count_challenge. rewrite C.
  assert (G : forall rc m,
    rc <> 0 -> m !! bk = kv w !! bk ->
    let r := match challenge_gate settings sess env
                     (client_id (parse int_of_str env f)) rc
                     (with_kv m (rebind f w)) with
             | (Ret Continue, w1) => (Ret tt, w1)
             | (_, w1) => publish_event sess env (parse int_of_str env f) w1
             end in
    fst r = Ret tt
    /\ kv (snd r) !! chk = None
    /\ kv (snd r) !! bk = kv w !! bk
    /\ outbox (snd r) = outbox w
    /\ channel (snd r)
       = (CHANNEL_NAME, event_of int_of_str sess (env, f)) :: channel w).
  { intros rc m Hrc Hm. cbv zeta.
    rewrite (challenge_gate_fault_free _ _ _ _ _ _ (F _)).
    cbn [payload with_kv set_kv]. rewrite Hp. cbv zeta.
    apply Z.eqb_neq in Hrc. rewrite Hrc. cbn [negb]. rewrite P.
    match goal with
    | |- context [publish_event sess env ?p ?w1] =>
        destruct (publish_event_ok sess env p w1 (F _)) as [R Ch];
        rewrite R, Ch, publish_event_kv, publish_event_outbox
    end.
    cbn [kv outbox channel with_kv set_kv]. rewrite Rc, rebind_outbox.
    rewrite lookup_delete_eq.
    rewrite lookup_delete_ne by apply not_eq_sym, block_challenge.
    repeat split; try reflexivity. exact Hm. }
  destruct (5 <? next_value (now env) ck (kv w)) eqn:E5.
  - apply Z.ltb_lt in E5. destruct N as [N|N]; [lia|].
    apply Z.leb_gt in N. rewrite N.
    apply G; [discriminate|].
    rewrite lookup_insert_ne by apply not_eq_sym, block_challenge.
    rewrite count_up_lookup_ne by apply not_eq_sym, block_strikes.
    apply count_up_lookup_ne, not_eq_sym, block_count.
  - apply G; [discriminate|].
    apply count_up_lookup_ne, not_eq_sym, block_count.
Qed.

(** C6, amended: with Redis answering every call of both iterations,
    when a challenge is pending for a sender who is not blocked, a
    frame (a JSON object that passes validation) whose [cf] token
    passes verification, and which is not itself a violation that
    brings the strikes counter to 3 or more, is published with no reply
    and the challenge key is deleted; the frame that follows, when it
    passes validation and is processed at a clock reading that is not
    earlier, is then published with no reply, provided it is counted at
    most fifth in its burst window. *)
Theorem passing_verification_clears_challenge
    (env1 env2 : Env) (f1 f2 : Frame) (d : gmap string pyval) (w : World) :
  sound int_of_str sess (env1, f1) ->
  sound int_of_str sess (env2, f2) ->
  loads f1 = Some (LDict d) ->
  blocked (now env1) bk (kv w) = false ->
  exists_of (now env1) chk (kv w) = 1 ->
  (if truthy (dict_get d "cf")
   then verify_turnstile settings env1 (dict_get d "cf") (client_host sess)
   else false) = true ->
  next_value (now env1) ck (kv w) <= 5 \/ next_value (now env1) sk (kv w) < 3 ->
  let r1 := step env1 f1 w in
  let r2 := step env2 f2 (snd r1) in
  (fst r1 = Ret tt
   /\ kv (snd r1) !! chk = None
   /\ outbox (snd r1) = outbox w
   /\ channel (snd r1)
      = (CHANNEL_NAME, event_of int_of_str sess (env1, f1)) :: channel w)
  /\ (now env1 <= now env2 ->
      next_value (now env2) ck (kv (snd r1)) <= 5 ->
      fst r2 = Ret tt
      /\ outbox (snd r2) = outbox (snd r1)
      /\ channel (snd r2)
         = (CHANNEL_NAME, event_of int_of_str sess (env2, f2))
             :: channel (snd r1)).
Proof.
  intros S1 S2 Hl B C P N. cbv zeta.
  destruct (passing_step env1 f1 d w S1 Hl B C P N) as (R & K & Kb & O & Ch).
  split; [repeat split; assumption|].
  intros Lt L5.
  destruct (within_limit_step int_of_str settings sess env2 f2
              (snd (step env1 f1 w)) S2) as (R2 & _ & O2 & Ch2).
  - exact (not_blocked_later _ _ _ _ _ Kb B Lt).
  - unfold exists_of. now rewrite (absent_not_live _ _ _ K).
  - exact L5.
  - repeat split; assumption.
Qed.

End AfterVerification.

(** ** At most five frames in any ten seconds (lines 129-135) *)

Lemma count_in_app t l k : count_in t (l ++ k) = (count_in t l + count_in t k)%nat.
Proof. unfold count_in. now rewrite filter_app, length_app. Qed.

Lemma count_in_one t i : in_window t i = true -> count_in t [i] = 1%nat.
Proof.
  intros H. unfold count_in. rewrite filter_cons_True by assumption.
  reflexivity.
Qed.

Lemma count_in_le_length t l : (count_in t l <= length l)%nat.
Proof. unfold count_in. apply length_filter. Qed.

Lemma short_list_within_limit l :
  (length l <= 5)%nat -> at_most_five_per_window l.
Proof. intros H t. pose proof (count_in_le_length t l). lia. Qed.

Section WithinLimit.
Variable int_of_str : string -> option Z.
Variable settings : Settings.
Variable sess : Session.

Local Abbreviation step := (writer_step int_of_str settings sess).
Local Abbreviation run := (writer int_of_str settings sess).
Local Abbreviation ck := (count_key sess).

Lemma calm_run todo : forall done w,
  in_arrival_order todo ->
  at_most_five_per_window (done ++ todo) ->
  Forall (sound int_of_str sess) todo ->
  calm sess (kv w) ->
  window_open sess (kv w) done todo ->
  fst (run todo w) = true
  /\ outbox (snd (run todo w)) = outbox w
  /\ channel (snd (run todo w)) = published int_of_str sess todo ++ channel w
  /\ calm sess (kv (snd (run todo w))).
Proof.
  induction todo as [|[env f] rest IH]; intros done w Hord H5 Hs Hcalm Hwin.
  { cbn [writer fst snd]. repeat split; try reflexivity; apply Hcalm. }
  inversion Hs as [|? ? S1 Srest]; subst.
  inversion Hord as [|? ? Ord Hfirst]; subst.
  assert (Hafter : Forall (fun i => now env <= arrival i) rest).
  { eapply Forall_impl; [exact Hfirst|]. intros i Hi. exact Hi. }
  assert (H5' : at_most_five_per_window ((done ++ [(env, f)]) ++ rest))
    by (rewrite <- app_assoc; exact H5).
  assert (Step : exists e,
    next_value (now env) ck (kv w) <= 5
    /\ count_up (now env) ck 10 (kv w) = <[ck := e]> (kv w)
    /\ window_open sess (<[ck := e]> (kv w)) (done ++ [(env, f)]) rest).
  { assert (First : lookup_live (now env) ck (kv w) = None ->
      exists e,
        next_value (now env) ck (kv w) <= 5
        /\ count_up (now env) ck 10 (kv w) = <[ck := e]> (kv w)
        /\ window_open sess (<[ck := e]> (kv w)) (done ++ [(env, f)]) rest).
    { intros Hn. destruct (count_up_first _ _ 10 _ Hn) as [Nv Cu].
      exists (1, Some (now env + 10)). rewrite Nv. split; [lia|].
      split; [exact Cu|]. right. exists 1, (now env + 10).
      rewrite lookup_insert_eq. split; [reflexivity|]. split; [lia|].
      replace (now env + 10 - 10) with (now env) by lia.
      split; [|exact Hafter].
      rewrite count_in_app, (count_in_one (now env) (env, f)); [lia|].
      unfold in_window, arrival. cbn [fst].
      apply andb_true_iff. split; [apply Z.leb_le|apply Z.ltb_lt]; lia. }
    destruct Hwin as [Hn|(c & x & Hc & C1 & Cle & Hfrom)].
    { apply First, absent_not_live, Hn. }
    destruct (Z.lt_ge_cases (now env) x) as [Lt|Ge].
    2:{ apply First. exact (expired_not_live _ _ _ _ _ Hc Ge). }
    destruct (count_up_next _ _ 10 _ _ _ Hc Lt C1) as [Nv Cu].
    inversion Hfrom as [|? ? Hcur Hrest]; subst.
    unfold arrival in Hcur. cbn [fst] in Hcur.
    assert (Hin : in_window (x - 10) (env, f) = true).
    { unfold in_window, arrival. cbn [fst].
      apply andb_true_iff. split; [apply Z.leb_le|apply Z.ltb_lt]; lia. }
    assert (Hcnt : (count_in (x - 10) (done ++ [(env, f)])
                    = count_in (x - 10) done + 1)%nat)
      by (rewrite count_in_app, (count_in_one _ _ Hin); reflexivity).
    exists (c + 1, Some x). rewrite Nv. split.
    - specialize (H5' (x - 10)). rewrite count_in_app, Hcnt in H5'. lia.
    - split; [exact Cu|]. right. exists (c + 1), x.
      rewrite lookup_insert_eq. split; [reflexivity|]. split; [lia|].
      split; [rewrite Hcnt; lia|exact Hrest]. }
  destruct Step as (e & L5 & Cu & Hwin').
  destruct (within_limit_step int_of_str settings sess env f w S1
              (calm_not_blocked sess _ _ Hcalm)
              (calm_no_challenge sess _ _ Hcalm) L5) as (R & K & O & Ch).
  cbn [writer]. destruct (step env f w) as [[[]|] w1]; [|discriminate].
  cbn [fst snd] in K, O, Ch. rewrite Cu in K.
  destruct (IH (done ++ [(env, f)]) w1) as (R' & O' & Ch' & Calm');
    try assumption.
  - rewrite K. now apply calm_insert_count.
  - rewrite K. exact Hwin'.
  - split; [assumption|]. split; [congruence|]. split; [|assumption].
    rewrite Ch', Ch. unfold published, on_channel. cbn [map rev].
    rewrite map_app, <- app_assoc. reflexivity.
Qed.

(** C5, amended: from a fresh rate-limit state, frames that pass
    validation (text not empty, display name present, at most 2000
    characters), processed at clock readings that never go back, with
    Redis answering every call and at most five of them in any 10
    seconds, are all published; no error frame is sent and no strike,
    challenge or block key is stored. *)
Theorem within_limit_never_throttled (inputs : list (Env * Frame)) (w : World) :
  fresh sess (kv w) ->
  Forall (sound int_of_str sess) inputs ->
  in_arrival_order inputs ->
  at_most_five_per_window inputs ->
  fst (run inputs w) = true
  /\ channel (snd (run inputs w)) = published int_of_str sess inputs ++ channel w
  /\ outbox (snd (run inputs w)) = outbox w
  /\ calm sess (kv (snd (run inputs w))).
Proof.
  intros [Hck Hcalm] Hs Hord H5.
  destruct (calm_run inputs [] w Hord H5 Hs Hcalm) as (R & O & Ch & C).
  - left. exact Hck.
  - repeat split; try assumption; apply C.
Qed.

End WithinLimit.

(** ** Failures of the backing store, at the level of the loop *)

Section StoreFailures.
Variable int_of_str : string -> option Z.
Variable settings : Settings.
Variable sess : Session.

Local Abbreviation step := (writer_step int_of_str settings sess).


End StoreFailures.

(** ** The challenge key after one iteration (lines 114-177) *)

Section ChallengeKey.
Variable int_of_str : string -> option Z.
Variable settings : Settings.
Variable sess : Session.

Local Abbreviation step := (writer_step int_of_str settings sess).
Local Abbreviation bk := (block_key sess).
Local Abbreviation ck := (count_key sess).
Local Abbreviation sk := (strikes_key sess).
Local Abbreviation chk := (challenge_key sess).

(** The challenge key once the token check and, when it lets the frame
    through, the publication are over: deleted when a challenge is
    required and the token passes, else as it was before the check. *)
Lemma challenge_key_after_gate env p cid rc m w :
  redis_fails env OpDeleteChallenge = false ->
  kv (snd (match challenge_gate settings sess env cid rc (with_kv m w) with
           | (Ret Continue, w1) => (Ret tt, w1)
           | (_, w1) => publish_event sess env p w1
           end)) !! chk
  = if negb (rc =? 0) && token_passes settings sess env (payload w)
    then None else m !! chk.
Proof.
  intros F. rewrite (challenge_gate_fault_free _ _ _ _ _ _ F).
  cbn [payload with_kv set_kv]. unfold token_passes.
  destruct (payload w) as [[d|]|]; cbv zeta.
  - destruct (negb (rc =? 0)); cbn [andb].
    + destruct (if truthy _ then _ else _).
      * rewrite publish_event_kv. cbn [kv set_kv with_kv].
        apply lookup_delete_eq.
      * cbn [snd]. rewrite maybe_send_kv. reflexivity.
    + rewrite publish_event_kv. reflexivity.
  - rewrite publish_event_kv, andb_false_r. reflexivity.
  - rewrite publish_event_kv, andb_false_r. reflexivity.
Qed.

(** C7, amended: in an iteration whose Redis calls are all answered, a
    frame that passes validation changes no key when the sender is
    blocked; otherwise it sets the challenge key, to expire 120 seconds
    later, exactly when it is counted beyond fifth in its burst window
    and brings the strikes counter to a value below 3, so on the first
    violation as on the second, and the key is deleted again in the
    same iteration only when the token the loop holds passes
    verification; a violation that brings the strikes counter to 3 or
    more sets the block key for 60 seconds and leaves the challenge key
    as it is; a frame counted at most fifth never sets the challenge
    key: it leaves it as it is, or deletes it when a challenge is
    pending and the token passes. *)
Theorem challenge_set_below_three_strikes (env : Env) (f : Frame) (w : World) :
  sound int_of_str sess (env, f) ->
  let t := now env in
  let cnt := next_value t ck (kv w) in
  let strikes := next_value t sk (kv w) in
  let passes := token_passes settings sess env (payload (rebind f w)) in
  let w' := snd (step env f w) in
  (blocked t bk (kv w) = true -> kv w' = kv w)
  /\ (blocked t bk (kv w) = false ->
      (5 < cnt -> strikes < 3 ->
       kv w' !! chk = if passes then None else Some (1, Some (t + 120)))
      /\ (5 < cnt -> 3 <= strikes ->
          kv w' !! chk = kv w !! chk
          /\ kv w' !! bk = Some (1, Some (t + 60)))
      /\ (cnt <= 5 ->
          kv w' !! chk
          = if negb (exists_of t chk (kv w) =? 0) && passes
            then None else kv w !! chk)).
Proof.
  intros [V F]. cbn [fst snd] in V, F. cbv zeta.
  rewrite (writer_step_valid _ _ _ _ _ _ V).
  rewrite (throttle_fault_free _ _ _ _ _ F). cbv zeta.
  rewrite rebind_kv. split; intros B; rewrite B.
  - cbn [snd]. now rewrite maybe_send_kv, rebind_kv.
  - split; [|split].
    + intros C S. apply Z.ltb_lt in C. rewrite C.
      rewrite next_value_count_up_ne by apply count_strikes.
      apply Z.leb_gt in S. rewrite S.
      rewrite (challenge_key_after_gate _ _ _ _ _ _ (F _)).
      cbn [Z.eqb negb andb].
      destruct (token_passes _ _ _ _); [reflexivity|].
      apply lookup_insert_eq.
    + intros C S. apply Z.ltb_lt in C. rewrite C.
      rewrite next_value_count_up_ne by apply count_strikes.
      apply Z.leb_le in S. rewrite S. cbn [snd].
      rewrite maybe_send_kv. cbn [kv with_kv set_kv]. split.
      * rewrite lookup_insert_ne by apply block_challenge.
        rewrite count_up_lookup_ne by apply strikes_challenge.
        apply count_up_lookup_ne, count_challenge.
      * apply lookup_insert_eq.
    + intros C. apply Z.ltb_ge in C. rewrite C.
      rewrite (challenge_key_after_gate _ _ _ _ _ _ (F _)).
      rewrite exists_of_count_up_ne by apply count_challenge.
      rewrite count_up_lookup_ne by apply count_challenge.
      reflexivity.
Qed.

End ChallengeKey.

(** ** The theorems on concrete runs *)

Lemma fault_free_env_at t : fault_free (env_at t).
Proof. intros op. reflexivity. Qed.

Lemma sound_hi t : sound int_of_digits alice (env_at t, text_frame "hi").
Proof. split; [vm_compute; reflexivity|apply fault_free_env_at]. Qed.

Lemma sound_token t : sound int_of_digits alice (env_at t, token_frame "tok").
Proof. split; [vm_compute; reflexivity|apply fault_free_env_at]. Qed.

Lemma Forall_burst (P : Env * Frame -> Prop) n t :
  P (env_at t, text_frame "hi") -> Forall P (burst n t).
Proof. intros H. induction n; constructor; assumption. Qed.

Lemma burst_in_arrival_order n t : in_arrival_order (burst n t).
Proof.
  induction n; constructor; [assumption|].
  apply Forall_burst. unfold arrival. cbn [fst now env_at]. lia.
Qed.

Lemma fresh_empty_world : fresh alice (kv empty_world).
Proof. repeat split; apply lookup_empty. Qed.

(** C1, witness: six plain frames in one second. *)
Lemma sixth_message_challenged_witness :
  let r := writer int_of_digits default_settings alice
             (((env_at 100, text_frame "hi") :: burst 4 100)
                ++ [(env_at 100, text_frame "hi")]) empty_world in
  fst r = true /\ map code (outbox (snd r)) = ["challenge_required"]
  /\ length (channel (snd r)) = 5%nat.
Proof.
  destruct (sixth_message_challenged int_of_digits default_settings alice
              (env_at 100) (text_frame "hi") (burst 4 100)
              (env_at 100) (text_frame "hi") {[ "text" := PStr "hi" ]}
              empty_world) as (R & _ & _ & Hno & _).
  - apply fresh_empty_world.
  - reflexivity.
  - apply Forall_app. split; [apply (Forall_burst _ 5)|constructor; [|constructor]];
      apply sound_hi.
  - apply Forall_app. split; [apply Forall_burst|constructor; [|constructor]];
      unfold arrival; cbn [fst now env_at]; lia.
  - reflexivity.
  - split; [exact R|]. destruct Hno as (Ch & O & _); [reflexivity|].
    cbv zeta. rewrite Ch, O. vm_compute. split; reflexivity.
Defined.

(** C1 as stated fails: with no Turnstile secret configured, which is
    the default, [verify_turnstile] accepts any token, so a sixth frame
    that carries a [cf] field is published and no error frame is sent. *)
Lemma sixth_message_published_with_token :
  let r := writer int_of_digits default_settings alice
             (burst 5 100 ++ [(env_at 100, token_frame "tok")]) empty_world in
  fst r = true /\ outbox (snd r) = []
  /\ length (channel (snd r)) = 6%nat.
Proof. vm_compute. repeat split; reflexivity. Qed.


(** C5, witness. *)
Lemma within_limit_never_throttled_witness :
  fst (writer int_of_digits default_settings alice (burst 5 100) empty_world)
  = true
  /\ channel (snd (writer int_of_digits default_settings alice (burst 5 100)
                     empty_world))
     = published int_of_digits alice (burst 5 100) ++ channel empty_world
  /\ outbox (snd (writer int_of_digits default_settings alice (burst 5 100)
                    empty_world))
     = outbox empty_world
  /\ calm alice (kv (snd (writer int_of_digits default_settings alice
                            (burst 5 100) empty_world))).
Proof.
  apply (within_limit_never_throttled int_of_digits default_settings alice
           (burst 5 100) empty_world).
  - apply fresh_empty_world.
  - apply Forall_burst, sound_hi.
  - apply burst_in_arrival_order.
  - apply short_list_within_limit. vm_compute. lia.
Defined.

(** C6, witness: the seventh frame of a burst carries a token, and the
    frame after it comes once the burst window is over. *)
Lemma passing_verification_clears_challenge_witness :
  let r1 := writer_step int_of_digits default_settings alice (env_at 100)
              (token_frame "tok") (after_burst 6 100) in
  let r2 := writer_step int_of_digits default_settings alice (env_at 111)
              (text_frame "hi") (snd r1) in
  kv (snd r1) !! challenge_key alice = None
  /\ fst r2 = Ret tt
  /\ outbox (snd r2) = outbox (snd r1).
Proof.
  destruct (passing_verification_clears_challenge int_of_digits default_settings
              alice (env_at 100) (env_at 111) (token_frame "tok")
              (text_frame "hi")
              {[ "text" := PStr "hi"; "cf" := PStr "tok" ]}
              (after_burst 6 100)) as ((_ & K & _) & H2).
  - apply sound_token.
  - apply sound_hi.
  - reflexivity.
  - vm_compute. reflexivity.
  - vm_compute. reflexivity.
  - vm_compute. reflexivity.
  - right. vm_compute. reflexivity.
  - split; [exact K|]. destruct H2 as (R2 & O2 & _).
    + cbn [now env_at]. lia.
    + vm_compute. discriminate.
    + split; assumption.
Defined.



Lemma Forall_spaced (P : Env * Frame -> Prop) mk n :
  (forall t, P (mk t, text_frame "hi")) -> forall t, Forall P (spaced mk n t).
Proof. intros H. induction n; intros t; constructor; auto. Qed.

(** C2, witness: 55 frames, ten seconds apart, are all published; the
    history list then holds the 50 published last, newest first. *)
Lemma history_bounded_newest_first_witness :
  let w := snd (writer int_of_digits default_settings alice
                  (spaced env_at 55 0) empty_world) in
  length (channel w) = 55%nat
  /\ length (history w) = 50%nat
  /\ history w = take 50 (map snd (channel w)).
Proof.
  cbv zeta.
  destruct (history_bounded_newest_first int_of_digits default_settings alice
              (spaced env_at 55 0) empty_world) as (new & Hc & _ & _ & H50).
  - apply Forall_spaced. intros t. split; reflexivity.
  - vm_compute. lia.
  - assert (L : length (channel (snd (writer int_of_digits default_settings
                                        alice (spaced env_at 55 0)
                                        empty_world))) = 55%nat)
      by (vm_compute; reflexivity).
    assert (N : map snd (channel (snd (writer int_of_digits default_settings
                                         alice (spaced env_at 55 0)
                                         empty_world))) = new).
    { rewrite Hc. cbn [channel empty_world]. rewrite app_nil_r.
      unfold on_channel. rewrite map_map. cbn [snd]. apply map_id. }
    assert (Ln : length new = 55%nat) by (rewrite <- N, length_map; exact L).
    split; [exact L|]. rewrite N, H50 by lia.
    split; [rewrite length_take; lia|reflexivity].
Defined.

(** C2 as stated fails: an [LTRIM] that raises is swallowed at lines
    190-191, after [PUBLISH] and [LPUSH] went through, so the message
    is published and pushed but the list is not cut.  With [LTRIM]
    raising, 51 published frames leave 51 entries and 60 leave 60; the
    loop goes on and no error frame is sent. *)
Lemma ltrim_failure_leaves_long_history :
  let r51 := writer int_of_digits default_settings alice
               (spaced (env_failing OpLtrim) 51 0) empty_world in
  let r60 := writer int_of_digits default_settings alice
               (spaced (env_failing OpLtrim) 60 0) empty_world in
  length (history (snd r51)) = 51%nat
  /\ fst r60 = true
  /\ outbox (snd r60) = []
  /\ length (channel (snd r60)) = 60%nat
  /\ length (history (snd r60)) = 60%nat
  /\ history (snd r60) = map snd (channel (snd r60)).
Proof. vm_compute. repeat split; reflexivity. Qed.


(** Three violations within 120 seconds need not block: the strikes
    key expires 120 seconds after the first strike, whatever follows.
    A burst of six at second 1000 gives the first strike; a burst of
    six at second 1119 gives the second; the frames at seconds 1121 and
    1122, counted seventh and eighth in their window, are violations
    too, but the strikes key was gone at second 1120, so they count as
    strikes 1 and 2.  The violations at 1119, 1121 and 1122 lie within
    three seconds, yet no block key is set and no frame is answered
    [blocked]. *)
Lemma three_violations_without_block :
  let run := fun l =>
    snd (writer int_of_digits default_settings alice l empty_world) in
  let l1 := burst 6 1000 ++ burst 6 1119 in
  let l2 := l1 ++ [(env_at 1121, text_frame "hi")] in
  let l3 := l2 ++ [(env_at 1122, text_frame "hi")] in
  kv (run (burst 6 1000)) !! strikes_key alice = Some (1, Some 1120)
  /\ kv (run l1) !! count_key alice = Some (6, Some 1129)
  /\ kv (run l1) !! strikes_key alice = Some (2, Some 1120)
  /\ kv (run l2) !! count_key alice = Some (7, Some 1129)
  /\ kv (run l2) !! strikes_key alice = Some (1, Some 1241)
  /\ kv (run l3) !! count_key alice = Some (8, Some 1129)
  /\ kv (run l3) !! strikes_key alice = Some (2, Some 1241)
  /\ kv (run l3) !! block_key alice = None
  /\ Forall (fun r => code r = "challenge_required") (outbox (run l3)).
Proof. vm_compute. repeat split; try reflexivity. repeat constructor. Qed.

(** When the [TTL] call of line 115 raises, the whole rate-limit block
    is left through line 178 and the frame of a blocked sender, with 59
    seconds of block left, is published; no [blocked] frame is sent. *)
Lemma ttl_failure_lets_blocked_sender_through :
  let w := after_burst 8 100 in
  let r := writer_step int_of_digits default_settings alice
             (env_failing OpTtlBlock 101) (text_frame "hi") w in
  blocked 101 (block_key alice) (kv w) = true
  /\ ttl_of 101 (block_key alice) (kv w) = 59
  /\ fst r = Ret tt
  /\ length (channel (snd r)) = S (length (channel w))
  /\ outbox (snd r) = outbox w.
Proof. vm_compute. repeat split; reflexivity. Qed.

(** C5 as stated fails: when the [EXPIRE] of line 132 raises once, which
    line 178 swallows, the count key stays without expiry and counts
    every later frame.  A sender with a fresh state who sends one frame
    every 100 seconds, the first while [EXPIRE] raises, has the sixth
    frame counted sixth: it is answered [challenge_required] and not
    published, and the strikes and challenge keys are stored. *)
Lemma expire_failure_throttles_slow_sender :
  let inputs :=
    (env_failing OpExpireCount 0, text_frame "hi")
      :: map (fun t => (env_at t, text_frame "hi")) [100; 200; 300; 400; 500] in
  let r := writer int_of_digits default_settings alice inputs empty_world in
  fresh alice (kv empty_world)
  /\ Forall (fun i => valid int_of_digits alice (fst i) (snd i) = true) inputs
  /\ in_arrival_order inputs
  /\ at_most_five_per_window inputs
  /\ fst r = true
  /\ length (channel (snd r)) = 5%nat
  /\ outbox (snd r) = [ErrChallenge PNone]
  /\ kv (snd r) !! count_key alice = Some (6, None)
  /\ kv (snd r) !! strikes_key alice = Some (1, Some 620)
  /\ kv (snd r) !! challenge_key alice = Some (1, Some 620).
Proof.
  cbv zeta. split; [apply fresh_empty_world|].
  split; [repeat constructor|].
  split; [repeat constructor; unfold arrival; cbn; lia|].
  split; [|vm_compute; repeat split; reflexivity].
  intros t. unfold count_in. cbn [map].
  repeat (rewrite filter_cons; case_decide); rewrite filter_nil;
    cbn [length]; try lia.
  repeat match goal with
         | H : in_window _ _ = true |- _ =>
             unfold in_window, arrival in H; cbn [fst now env_at env_failing] in H;
             apply andb_true_iff in H as [?%Z.leb_le ?%Z.ltb_lt]
         end.
  lia.
Qed.

(** C6 as stated fails: verification does not reset the burst count.
    After six frames in one second a challenge is pending; the seventh
    carries a passing token, is published and clears the challenge; the
    eighth, the very next valid frame, is the third strike and is
    answered [blocked] instead of being published. *)
Lemma next_message_blocked_after_passing :
  let w6 := after_burst 6 100 in
  let r7 := writer_step int_of_digits default_settings alice (env_at 100)
              (token_frame "tok") w6 in
  let r8 := writer_step int_of_digits default_settings alice (env_at 100)
              (text_frame "hi") (snd r7) in
  exists_of 100 (challenge_key alice) (kv w6) = 1
  /\ length (channel (snd r7)) = S (length (channel w6))
  /\ kv (snd r7) !! challenge_key alice = None
  /\ channel (snd r8) = channel (snd r7)
  /\ outbox (snd r8) = ErrBlocked blocked_minute 60 PNone :: outbox (snd r7).
Proof. vm_compute. repeat split; reflexivity. Qed.

(** When the [DELETE] of line 175 raises, which lines 176-177 swallow,
    the frame with the passing token is published but the challenge key
    stays; the next frame, the first of a new burst window, is answered
    [challenge_required] and not published. *)
Lemma delete_failure_keeps_challenge :
  let w6 := after_burst 6 100 in
  let r7 := writer_step int_of_digits default_settings alice
              (env_failing OpDeleteChallenge 100) (token_frame "tok") w6 in
  let r8 := writer_step int_of_digits default_settings alice (env_at 111)
              (text_frame "hi") (snd r7) in
  fst r7 = Ret tt
  /\ length (channel (snd r7)) = S (length (channel w6))
  /\ outbox (snd r7) = outbox w6
  /\ kv (snd r7) !! challenge_key alice = Some (1, Some 220)
  /\ next_value 111 (count_key alice) (kv (snd r7)) = 1
  /\ channel (snd r8) = channel (snd r7)
  /\ outbox (snd r8) = ErrChallenge PNone :: outbox (snd r7).
Proof. vm_compute. repeat split; reflexivity. Qed.

(** C7, witness: the sixth plain frame of a burst is the first
    violation; it brings the strikes counter to 1 and sets the
    challenge key. *)
Lemma challenge_set_below_three_strikes_witness :
  next_value 100 (strikes_key alice) (kv (after_burst 5 100)) = 1
  /\ kv (snd (writer_step int_of_digits default_settings alice (env_at 100)
                (text_frame "hi") (after_burst 5 100)))
       !! challenge_key alice
     = Some (1, Some (now (env_at 100) + 120)).
Proof.
  split; [vm_compute; reflexivity|].
  destruct (challenge_set_below_three_strikes int_of_digits default_settings
              alice (env_at 100) (text_frame "hi") (after_burst 5 100)
              (sound_hi 100)) as [_ H].
  destruct H as (H1 & _); [vm_compute; reflexivity|].
  rewrite H1; vm_compute; reflexivity.
Defined.

(** C7 as stated fails: the challenge key is already set by the first
    violation, when the strike count reaches 1. *)
Lemma challenge_set_on_first_violation :
  kv (after_burst 5 100) !! challenge_key alice = None
  /\ kv (after_burst 5 100) !! strikes_key alice = None
  /\ kv (after_burst 6 100) !! strikes_key alice = Some (1, Some 220)
  /\ kv (after_burst 6 100) !! challenge_key alice = Some (1, Some 220).
Proof. vm_compute. repeat split; reflexivity. Qed.

(** When the [SET] of line 153 raises on a first violation, which line
    178 swallows, no challenge key is stored, and the frame is
    published with no reply; when the [EXPIRE] of line 138 raises, the
    same holds and the strikes key stays without expiry. *)
Lemma set_failure_leaves_no_challenge :
  let w5 := after_burst 5 100 in
  let ra := writer_step int_of_digits default_settings alice
              (env_failing OpSetChallenge 100) (text_frame "hi") w5 in
  let rb := writer_step int_of_digits default_settings alice
              (env_failing OpExpireStrikes 100) (text_frame "hi") w5 in
  next_value 100 (count_key alice) (kv w5) = 6
  /\ (fst ra = Ret tt
      /\ length (channel (snd ra)) = S (length (channel w5))
      /\ outbox (snd ra) = outbox w5
      /\ kv (snd ra) !! challenge_key alice = None
      /\ kv (snd ra) !! strikes_key alice = Some (1, Some 220))
  /\ (fst rb = Ret tt
      /\ length (channel (snd rb)) = S (length (channel w5))
      /\ outbox (snd rb) = outbox w5
      /\ kv (snd rb) !! challenge_key alice = None
      /\ kv (snd rb) !! strikes_key alice = Some (1, None)).
Proof. vm_compute. repeat split; reflexivity. Qed.

(** * Further properties of the relay *)

(** ** What reaches the channel (lines 94-105, 183-185) *)

Lemma length_substring_le n s : (String.length (substring 0 n s) <= n)%nat.
Proof.
  revert s. induction n as [|n IH]; intros [|c s]; cbn [substring String.length];
    try lia.
  specialize (IH s). lia.
Qed.

Section Published.
Variable int_of_str : string -> option Z.
Variable settings : Settings.
Variable sess : Session.

Local Abbreviation step := (writer_step int_of_str settings sess).
Local Abbreviation run := (writer int_of_str settings sess).

(** An iteration leaves the channel alone, or publishes the event of a
    frame that passed the three checks. *)
Lemma writer_step_publishes env f w :
  channel (snd (step env f w)) = channel w
  \/ (valid int_of_str sess env f = true
      /\ channel (snd (step env f w))
         = (CHANNEL_NAME, event_of int_of_str sess (env, f)) :: channel w).
Proof.
  unfold valid, rejected_at_validation. cbv zeta.
  rewrite writer_step_unfold. cbv zeta.
  destruct (rebind_log f w) as [Rc _].
  destruct (is_empty _); [left; assumption|].
  destruct (no_display_name sess); [left; assumption|].
  destruct (2000 <? _).
  { left. unfold swallow, try_except, send_text, ret.
    destruct (send_fails env); assumption. }
  destruct (keeps_log_throttle settings sess env
              (client_id (parse int_of_str env f)) (rebind f w)) as (Tc & _).
  destruct (throttle _ _ _ _ _) as [[[|]|] w1]; cbn [fst snd] in Tc |- *.
  - destruct (publish_event_log sess env (parse int_of_str env f) w1)
      as [(_ & Pc & _)|(_ & Pc & _)]; [left; congruence|].
    right. split; [reflexivity|]. rewrite Pc, Tc, Rc. reflexivity.
  - left. congruence.
  - destruct (publish_event_log sess env (parse int_of_str env f) w1)
      as [(_ & Pc & _)|(_ & Pc & _)]; [left; congruence|].
    right. split; [reflexivity|]. rewrite Pc, Tc, Rc. reflexivity.
Qed.

Lemma valid_event_well_formed env f :
  valid int_of_str sess env f = true ->
  well_formed_event (event_of int_of_str sess (env, f)).
Proof.
  unfold valid, rejected_at_validation. cbv zeta. intros V.
  apply negb_true_iff in V. apply orb_false_iff in V as [V V3].
  apply orb_false_iff in V as [V1 V2].
  unfold well_formed_event, event_of, make_event. cbn [ev_text ev_user fst snd].
  split; [exact V1|]. split; [apply Z.ltb_ge; exact V3|].
  unfold no_display_name in V2. unfold display_name in *.
  destruct (user sess) as [u|]; [|discriminate].
  eexists. split; [reflexivity|]. split; [exact V2|].
  unfold len. pose proof (length_substring_le 32 (name_or_email u)). lia.
Qed.

(** X1: whatever the frames, the failures of Redis or of the socket,
    every message a run of the loop publishes is the event of one of
    its input frames, with a text that is not empty and has at most
    2000 characters and a display name that is not empty and has at
    most 32 characters. *)
Theorem published_messages_well_formed (inputs : list (Env * Frame)) (w : World) :
  exists new,
    channel (snd (run inputs w)) = on_channel new ++ channel w
    /\ Forall well_formed_event new
    /\ Forall (fun e => exists i, In i inputs
                                 /\ e = event_of int_of_str sess i) new.
Proof.
  revert w. induction inputs as [|[env f] rest IH]; intros w.
  { exists []. repeat split; constructor. }
  cbn [writer].
  destruct (writer_step_publishes env f w) as [S|[V S]];
    destruct (step env f w) as [[[]|] w1]; cbn [fst snd] in S |- *.
  - destruct (IH w1) as (new & Hc & Hw & Hi). exists new.
    rewrite Hc, S. repeat split; [assumption|].
    eapply Forall_impl; [exact Hi|]. intros e (i & Hin & He).
    exists i. split; [right; exact Hin|exact He].
  - exists []. repeat split; [assumption|constructor..].
  - destruct (IH w1) as (new & Hc & Hw & Hi).
    exists (new ++ [event_of int_of_str sess (env, f)]).
    rewrite Hc, S. unfold on_channel. rewrite map_app, <- app_assoc.
    repeat split.
    + apply Forall_app. split; [assumption|].
      constructor; [|constructor]. now apply valid_event_well_formed.
    + apply Forall_app. split.
      * eapply Forall_impl; [exact Hi|]. intros e (i & Hin & He).
        exists i. split; [right; exact Hin|exact He].
      * constructor; [|constructor]. exists (env, f). split; [now left|reflexivity].
  - exists [event_of int_of_str sess (env, f)]. rewrite S.
    repeat split.
    + constructor; [|constructor]. now apply valid_event_well_formed.
    + constructor; [|constructor]. exists (env, f). split; [now left|reflexivity].
Qed.

(** Without display name every frame is dropped at line 95 or 98. *)
Lemma no_display_name_step env f w :
  no_display_name sess = true -> step env f w = (Ret tt, rebind f w).
Proof.
  intros N. rewrite writer_step_unfold. cbv zeta. rewrite N.
  now destruct (is_empty _).
Qed.

Lemma no_display_name_keeps_channel inputs : forall w,
  no_display_name sess = true -> channel (snd (run inputs w)) = channel w.
Proof.
  induction inputs as [|[env f] rest IH]; intros w N; [reflexivity|].
  cbn [writer]. rewrite (no_display_name_step env f w N).
  rewrite (IH (rebind f w) N). apply rebind_log.
Qed.

(** X2: a connection without display name (no user resolved at connect
    time, or a user whose name and email are empty) sends nothing:
    whatever frames it delivers, the loop goes on to the end and Redis,
    the channel, the history and the outbox stay as they were. *)
Theorem anonymous_connection_is_read_only (inputs : list (Env * Frame)) (w : World) :
  no_display_name sess = true ->
  fst (run inputs w) = true
  /\ observable (snd (run inputs w)) = observable w.
Proof.
  intros N. revert w. induction inputs as [|[env f] rest IH]; intros w.
  { split; reflexivity. }
  cbn [writer]. rewrite (no_display_name_step env f w N).
  assert (O : observable (rebind f w) = observable w)
    by (unfold rebind; destruct (loads f); reflexivity).
  destruct (IH (rebind f w)) as [R E]. split; [exact R|congruence].
Qed.

End Published.

(** X2, witness. *)
Lemma anonymous_connection_is_read_only_witness :
  observable (snd (writer int_of_digits default_settings anonymous
                     (burst 3 100) (after_burst 2 90)))
  = observable (after_burst 2 90).
Proof.
  apply (anonymous_connection_is_read_only int_of_digits default_settings
           anonymous (burst 3 100) (after_burst 2 90)).
  reflexivity.
Defined.

(** ** One outcome per frame (lines 94-191) *)

Lemma clean_at_most_one {A} (m : M A) : clean m -> at_most_one_reply m.
Proof. intros H w. left. apply H. Qed.

Lemma at_most_one_bind {A B} (m : M A) (k : A -> M B) :
  clean m -> (forall a, at_most_one_reply (k a)) -> at_most_one_reply (bind m k).
Proof.
  intros Hm Hk w. unfold bind. destruct (Hm w) as [Ho _].
  destruct (m w) as [[a|] w1]; cbn [fst snd] in *; [|now left].
  destruct (Hk a w1) as [E|[r E]]; [left|right; exists r]; congruence.
Qed.

Lemma at_most_one_reply_sent {A} env r (a : A) :
  at_most_one_reply (swallow (send_text env r) ;;; ret a).
Proof.
  intros w. rewrite reply_then_continue. unfold maybe_send. cbn [snd].
  destruct (send_fails env); [now left|right; now exists r].
Qed.

Lemma at_most_one_escalate sess env cid :
  at_most_one_reply (escalate sess env cid).
Proof.
  unfold escalate.
  apply at_most_one_bind; [apply clean_incr|intros strikes].
  apply at_most_one_bind; [apply clean_first_expire|intros _].
  destruct (3 <=? strikes);
    (apply at_most_one_bind; [apply clean_set|intros _]).
  - apply at_most_one_reply_sent.
  - apply clean_at_most_one, clean_ret.
Qed.

Lemma at_most_one_challenge_gate settings sess env cid rc :
  at_most_one_reply (challenge_gate settings sess env cid rc).
Proof.
  unfold challenge_gate.
  apply at_most_one_bind; [apply clean_payload_get_cf|intros cf_token].
  destruct (negb (rc =? 0)); [|apply clean_at_most_one, clean_ret].
  destruct (negb _); [apply at_most_one_reply_sent|].
  intros w. left. unfold swallow, try_except, redis_delete, redis_call, bind, ret.
  destruct (redis_fails env OpDeleteChallenge); reflexivity.
Qed.

Lemma at_most_one_after_opt (m : M (option Z)) (k : Z -> M flow) :
  guarded_opt m -> at_most_one_reply m ->
  (forall rc, at_most_one_reply (k rc)) ->
  at_most_one_reply (esc <- m ;;
                     match esc with None => ret Continue | Some rc => k rc end).
Proof.
  intros Hg Hm Hk w. unfold bind. specialize (Hg w). specialize (Hm w).
  destruct (m w) as [[[rc|]|] w1]; cbn [fst snd] in *; try exact Hm.
  destruct Hg as [Ho _].
  destruct (Hk rc w1) as [E|[r E]]; [left|right; exists r]; congruence.
Qed.

Lemma at_most_one_throttle settings sess env cid :
  at_most_one_reply (throttle settings sess env cid).
Proof.
  unfold throttle.
  apply at_most_one_bind; [apply clean_ttl|intros ttl].
  destruct (negb (ttl =? 0) && (0 <? ttl)); [apply at_most_one_reply_sent|].
  apply at_most_one_bind; [apply clean_incr|intros cnt].
  apply at_most_one_bind; [apply clean_first_expire|intros _].
  apply at_most_one_bind; [apply clean_exists|intros rq].
  apply at_most_one_after_opt.
  - destruct (5 <? cnt); [apply guarded_opt_escalate|].
    intros w. split; reflexivity.
  - destruct (5 <? cnt); [apply at_most_one_escalate|].
    apply clean_at_most_one, clean_ret.
  - intros rc. apply at_most_one_challenge_gate.
Qed.

Section OneOutcome.
Variable int_of_str : string -> option Z.
Variable settings : Settings.
Variable sess : Session.

Local Abbreviation step := (writer_step int_of_str settings sess).

(** X3: whatever Redis or the socket do, an iteration has one of three
    outcomes: the frame is dropped (nothing published, nothing sent);
    or it is answered by exactly one error frame and not published, the
    loop going on; or it is published and nothing is sent back.  A
    frame is never both published and answered, and never answered
    twice. *)
Theorem one_outcome_per_frame (env : Env) (f : Frame) (w : World) :
  let r := step env f w in
  (channel (snd r) = channel w /\ outbox (snd r) = outbox w)
  \/ (channel (snd r) = channel w /\ fst r = Ret tt
      /\ exists reply, outbox (snd r) = reply :: outbox w)
  \/ (channel (snd r)
      = (CHANNEL_NAME, event_of int_of_str sess (env, f)) :: channel w
      /\ outbox (snd r) = outbox w).
Proof.
  cbv zeta. rewrite writer_step_unfold. cbv zeta.
  destruct (rebind_log f w) as [Rc _].
  pose proof (rebind_outbox f w) as Ro.
  destruct (is_empty _); [left; split; assumption|].
  destruct (no_display_name sess); [left; split; assumption|].
  destruct (2000 <? _).
  { unfold swallow, try_except, send_text, ret.
    destruct (send_fails env); cbn [fst snd channel outbox add_outbox].
    - left. split; assumption.
    - right. left. split; [assumption|]. split; [reflexivity|].
      eexists. now rewrite Ro. }
  set (cid := client_id (parse int_of_str env f)).
  destruct (keeps_log_throttle settings sess env cid (rebind f w)) as (Tc & _).
  pose proof (guarded_throttle settings sess env cid (rebind f w)) as G.
  pose proof (at_most_one_throttle settings sess env cid (rebind f w)) as A.
  assert (P : forall w1,
    channel w1 = channel (rebind f w) -> outbox w1 = outbox (rebind f w) ->
    let r := publish_event sess env (parse int_of_str env f) w1 in
    (channel (snd r) = channel w /\ outbox (snd r) = outbox w)
    \/ (channel (snd r) = channel w /\ fst r = Ret tt
        /\ exists reply, outbox (snd r) = reply :: outbox w)
    \/ (channel (snd r)
        = (CHANNEL_NAME, event_of int_of_str sess (env, f)) :: channel w
        /\ outbox (snd r) = outbox w)).
  { intros w1 Hc Ho. cbv zeta.
    pose proof (publish_event_outbox sess env (parse int_of_str env f) w1) as Po.
    destruct (publish_event_log sess env (parse int_of_str env f) w1)
      as [(_ & Pc & _)|(_ & Pc & _)].
    - left. split; congruence.
    - right. right. split; [|congruence]. rewrite Pc, Hc, Rc. reflexivity. }
  destruct (throttle settings sess env cid (rebind f w)) as [[[|]|] w1];
    cbn [fst snd] in Tc, G, A |- *.
  - apply P; assumption.
  - destruct A as [E|[reply E]].
    + left. split; congruence.
    + right. left. split; [congruence|]. split; [reflexivity|].
      exists reply. congruence.
  - apply P; assumption.
Qed.

End OneOutcome.

(** ** The challenge (lines 134, 152-177) *)

Lemma maybe_send_outbox_eq env r w1 w2 :
  outbox w1 = outbox w2 ->
  outbox (maybe_send env r w1) = outbox (maybe_send env r w2).
Proof.
  intros H. unfold maybe_send. destruct (send_fails env);
    cbn [outbox add_outbox]; congruence.
Qed.

Section Challenge.
Variable int_of_str : string -> option Z.
Variable settings : Settings.
Variable sess : Session.

Local Abbreviation step := (writer_step int_of_str settings sess).
Local Abbreviation bk := (block_key sess).
Local Abbreviation ck := (count_key sess).
Local Abbreviation sk := (strikes_key sess).
Local Abbreviation chk := (challenge_key sess).

(** X4: with Redis answering every call of the iteration and the
    challenge key stored, a frame that passes validation is never
    published nor logged when the payload the loop holds after reading
    it (the frame's own parsed JSON or, for a frame that is no JSON,
    the value an earlier frame left) is a dict whose [cf] field is
    missing or fails verification: it is answered
    [challenge_required], or [blocked] when the sender is blocked or
    this frame is the third strike. *)
Theorem pending_challenge_is_enforced
    (env : Env) (f : Frame) (d : gmap string pyval) (w : World) :
  sound int_of_str sess (env, f) ->
  payload (rebind f w) = Some (LDict d) ->
  (if truthy (dict_get d "cf")
   then verify_turnstile settings env (dict_get d "cf") (client_host sess)
   else false) = false ->
  exists_of (now env) chk (kv w) = 1 ->
  let r := step env f w in
  fst r = Ret tt
  /\ channel (snd r) = channel w
  /\ lists (snd r) = lists w
  /\ exists reply,
       (code reply = "blocked" \/ code reply = "challenge_required")
       /\ outbox (snd r) = outbox (maybe_send env reply w).
Proof.
  intros [V F] Hp Hno C. cbn [fst snd] in V, F. cbv zeta.
  rewrite (writer_step_valid _ _ _ _ _ _ V).
  rewrite (throttle_fault_free _ _ _ _ _ F). cbv zeta.
  rewrite rebind_kv.
  destruct (rebind_log f w) as [Rc Rl]. pose proof (rebind_outbox f w) as Ro.
  assert (G : forall rc m,
    rc <> 0 ->
    let r := match challenge_gate settings sess env
                     (client_id (parse int_of_str env f)) rc
                     (with_kv m (rebind f w)) with
             | (Ret Continue, w1) => (Ret tt, w1)
             | (_, w1) => publish_event sess env (parse int_of_str env f) w1
             end in
    fst r = Ret tt
    /\ channel (snd r) = channel w
    /\ lists (snd r) = lists w
    /\ exists reply,
         (code reply = "blocked" \/ code reply = "challenge_required")
         /\ outbox (snd r) = outbox (maybe_send env reply w)).
  { intros rc m Hrc. cbv zeta.
    rewrite (challenge_gate_fault_free _ _ _ _ _ _ (F _)).
    cbn [payload with_kv set_kv]. rewrite Hp. cbv zeta.
    apply Z.eqb_neq in Hrc. rewrite Hrc. cbn [negb]. rewrite Hno.
    cbn [fst snd]. rewrite maybe_send_channel, maybe_send_lists.
    cbn [channel lists with_kv set_kv]. repeat split; try assumption.
    eexists. split; [|apply maybe_send_outbox_eq; exact Ro].
    right; reflexivity. }
  destruct (blocked (now env) bk (kv w)).
  { cbn [fst snd]. rewrite maybe_send_channel, maybe_send_lists.
    repeat split; try assumption.
    eexists. split; [|apply maybe_send_outbox_eq; exact Ro].
    left; reflexivity. }
  destruct (5 <? next_value (now env) ck (kv w)).
  - destruct (3 <=? _).
    + cbn [fst snd]. rewrite maybe_send_channel, maybe_send_lists.
      cbn [channel lists with_kv set_kv]. repeat split; try assumption.
      eexists. split; [|apply maybe_send_outbox_eq; exact Ro].
      left; reflexivity.
    + apply G. discriminate.
  - rewrite exists_of_count_up_ne by apply count_challenge. rewrite C.
    apply G. discriminate.
Qed.

(** X5: the token is read with [payload.get] inside the rate-limiting
    [try]; when the local [payload] is not a dict (the frame is no JSON
    object and no earlier frame was one) that call raises and the
    handler fails open.  Such a frame, when it passes validation and is
    neither blocked nor the third strike, is published with no reply
    even while a challenge is pending. *)
Theorem non_object_frame_skips_challenge (env : Env) (f : Frame) (w : World) :
  sound int_of_str sess (env, f) ->
  (forall d, payload (rebind f w) <> Some (LDict d)) ->
  blocked (now env) bk (kv w) = false ->
  next_value (now env) ck (kv w) <= 5 \/ next_value (now env) sk (kv w) < 3 ->
  let r := step env f w in
  fst r = Ret tt
  /\ channel (snd r)
     = (CHANNEL_NAME, event_of int_of_str sess (env, f)) :: channel w
  /\ outbox (snd r) = outbox w.
Proof.
  intros [V F] Hp B N. cbn [fst snd] in V, F. cbv zeta.
  rewrite (writer_step_valid _ _ _ _ _ _ V).
  rewrite (throttle_fault_free _ _ _ _ _ F). cbv zeta.
  rewrite rebind_kv, B.
  destruct (rebind_log f w) as [Rc _]. pose proof (rebind_outbox f w) as Ro.
  assert (G : forall rc m,
    let r := match challenge_gate settings sess env
                     (client_id (parse int_of_str env f)) rc
                     (with_kv m (rebind f w)) with
             | (Ret Continue, w1) => (Ret tt, w1)
             | (_, w1) => publish_event sess env (parse int_of_str env f) w1
             end in
    fst r = Ret tt
    /\ channel (snd r)
       = (CHANNEL_NAME, event_of int_of_str sess (env, f)) :: channel w
    /\ outbox (snd r) = outbox w).
  { intros rc m. cbv zeta.
    rewrite (challenge_gate_fault_free _ _ _ _ _ _ (F _)).
    cbn [payload with_kv set_kv].
    assert (E : forall w1 : World,
      match payload (rebind f w) with
      | Some (LDict d) =>
          let cf_token := dict_get d "cf" in
          if negb (rc =? 0)
          then
            if (if truthy cf_token
                then verify_turnstile settings env cf_token (client_host sess)
                else false)
            then (Ret Proceed, set_kv (delete chk) w1)
            else (Ret Continue,
                  maybe_send env
                    (ErrChallenge (client_id (parse int_of_str env f))) w1)
          else (Ret Proceed, w1)
      | _ => (@Exc flow, w1)
      end = (Exc, w1)).
    { intros w1. destruct (payload (rebind f w)) as [[d|]|] eqn:E;
        [now contradiction (Hp d)|reflexivity..]. }
    rewrite E.
    match goal with
    | |- context [publish_event sess env ?p ?w1] =>
        destruct (publish_event_ok sess env p w1 (F _)) as [R Ch];
        rewrite R, Ch, publish_event_outbox
    end.
    cbn [outbox channel with_kv set_kv]. rewrite Rc, Ro.
    repeat split; reflexivity. }
  destruct (5 <? next_value (now env) ck (kv w)) eqn:E5.
  - apply Z.ltb_lt in E5. destruct N as [N|N]; [lia|].
    rewrite next_value_count_up_ne by apply count_strikes.
    apply Z.leb_gt in N. rewrite N. apply G.
  - apply G.
Qed.

(** X6: when a challenge is required and the loop holds a dict payload,
    the frame gets past the challenge exactly when its [cf] field is
    truthy and either no Turnstile secret is configured or the
    verification service answers success; otherwise the iteration ends
    with [continue].  With verification not configured a token is still
    demanded, and any token will do.  A failing [DEL] changes nothing
    of this. *)
Theorem challenge_passes_iff
    (env : Env) (cid : pyval) (rc : Z) (d : gmap string pyval) (w : World) :
  rc <> 0 ->
  payload w = Some (LDict d) ->
  fst (challenge_gate settings sess env cid rc w)
  = Ret (if truthy (dict_get d "cf")
            && (negb (secret_configured settings) || siteverify env)
         then Proceed else Continue).
Proof.
  intros Hrc Hp. unfold challenge_gate, payload_get_cf. unfold bind at 1.
  rewrite Hp. apply Z.eqb_neq in Hrc. rewrite Hrc. cbn [negb].
  unfold verify_turnstile.
  destruct (truthy (dict_get d "cf")) eqn:T; cbn [andb negb].
  - destruct (secret_configured settings); cbn [negb orb].
    + destruct (siteverify env); cbn [negb].
      * unfold swallow, try_except, redis_delete, redis_call, bind, ret.
        destruct (redis_fails env OpDeleteChallenge); reflexivity.
      * now rewrite reply_then_continue.
    + unfold swallow, try_except, redis_delete, redis_call, bind, ret.
      destruct (redis_fails env OpDeleteChallenge); reflexivity.
  - now rewrite reply_then_continue.
Qed.

End Challenge.

(** ** The keys an iteration writes (lines 108-177) *)

Lemma keeps_key_ret k {A} (a : A) : keeps_key k (ret a).
Proof. intros w. reflexivity. Qed.

Lemma keeps_key_bind k {A B} (m : M A) (f : A -> M B) :
  keeps_key k m -> (forall a, keeps_key k (f a)) -> keeps_key k (bind m f).
Proof.
  intros Hm Hf w. unfold bind. specialize (Hm w).
  destruct (m w) as [[a|] w1]; cbn [fst snd] in *; [|assumption].
  rewrite (Hf a w1). assumption.
Qed.

Lemma keeps_key_swallow k (m : M unit) : keeps_key k m -> keeps_key k (swallow m).
Proof.
  intros Hm w. unfold swallow, try_except, ret. specialize (Hm w).
  destruct (m w) as [[a|] w1]; exact Hm.
Qed.

Lemma keeps_key_send k env r : keeps_key k (send_text env r).
Proof. intros w. unfold send_text. destruct (send_fails env); reflexivity. Qed.

Lemma keeps_key_ttl k env op k' : keeps_key k (redis_ttl env op k').
Proof.
  intros w. unfold redis_ttl, redis_call. destruct (redis_fails env op);
    [reflexivity|].
  destruct (lookup_live (now env) k' (kv w)) as [[v [x|]]|]; reflexivity.
Qed.

Lemma keeps_key_exists k env op k' : keeps_key k (redis_exists env op k').
Proof.
  intros w. unfold redis_exists, redis_call. destruct (redis_fails env op);
    [reflexivity|].
  destruct (lookup_live (now env) k' (kv w)) as [[v x]|]; reflexivity.
Qed.

Lemma keeps_key_incr k env op k' : k' <> k -> keeps_key k (redis_incr env op k').
Proof.
  intros N w. unfold redis_incr, redis_call. destruct (redis_fails env op);
    [reflexivity|].
  destruct (lookup_live (now env) k' (kv w)) as [[v x]|];
    cbn [snd kv set_kv]; now rewrite lookup_insert_ne.
Qed.

Lemma keeps_key_expire k env op k' s :
  k' <> k -> keeps_key k (redis_expire env op k' s).
Proof.
  intros N w. unfold redis_expire, redis_call. destruct (redis_fails env op);
    [reflexivity|].
  destruct (lookup_live (now env) k' (kv w)) as [[v x]|];
    cbn [snd kv set_kv]; [now rewrite lookup_insert_ne|reflexivity].
Qed.

Lemma keeps_key_set k env op k' v s :
  k' <> k -> keeps_key k (redis_set env op k' v s).
Proof.
  intros N w. unfold redis_set, redis_call. destruct (redis_fails env op);
    [reflexivity|].
  cbn [snd kv set_kv]. now rewrite lookup_insert_ne.
Qed.

Lemma keeps_key_delete k env op k' :
  k' <> k -> keeps_key k (redis_delete env op k').
Proof.
  intros N w. unfold redis_delete, redis_call. destruct (redis_fails env op);
    [reflexivity|].
  cbn [snd kv set_kv]. now rewrite lookup_delete_ne.
Qed.

Lemma keeps_key_payload_get_cf k : keeps_key k payload_get_cf.
Proof.
  intros w. unfold payload_get_cf. destruct (payload w) as [[d|]|]; reflexivity.
Qed.

Lemma keeps_key_first_expire k (c : Z) env op k' s :
  k' <> k ->
  keeps_key k (if c =? 1 then (_ <- redis_expire env op k' s ;; ret tt) else ret tt).
Proof.
  intros N. destruct (c =? 1); [|apply keeps_key_ret].
  apply keeps_key_bind; [now apply keeps_key_expire|intros; apply keeps_key_ret].
Qed.

Lemma keeps_key_reply k {A} env r (a : A) :
  keeps_key k (swallow (send_text env r) ;;; ret a).
Proof.
  apply keeps_key_bind; [|intros; apply keeps_key_ret].
  apply keeps_key_swallow, keeps_key_send.
Qed.

Lemma keeps_key_escalate k sess env cid :
  strikes_key sess <> k -> block_key sess <> k -> challenge_key sess <> k ->
  keeps_key k (escalate sess env cid).
Proof.
  intros Ns Nb Nc. unfold escalate.
  apply keeps_key_bind; [now apply keeps_key_incr|intros strikes].
  apply keeps_key_bind; [now apply keeps_key_first_expire|intros _].
  destruct (3 <=? strikes);
    (apply keeps_key_bind; [now apply keeps_key_set|intros _]).
  - apply keeps_key_reply.
  - apply keeps_key_ret.
Qed.

Lemma keeps_key_challenge_gate k settings sess env cid rc :
  challenge_key sess <> k ->
  keeps_key k (challenge_gate settings sess env cid rc).
Proof.
  intros Nc. unfold challenge_gate.
  apply keeps_key_bind; [apply keeps_key_payload_get_cf|intros cf_token].
  destruct (negb (rc =? 0)); [|apply keeps_key_ret].
  destruct (negb _); [apply keeps_key_reply|].
  apply keeps_key_bind; [|intros; apply keeps_key_ret].
  now apply keeps_key_swallow, keeps_key_delete.
Qed.

(** Lines 134-177, what follows the burst counter. *)
Lemma keeps_key_after_count k settings sess env cid (cnt : Z) :
  strikes_key sess <> k -> block_key sess <> k -> challenge_key sess <> k ->
  keeps_key k
    (require_challenge <- redis_exists env OpExistsChallenge (challenge_key sess) ;;
     esc <- (if 5 <? cnt then escalate sess env cid
             else ret (Some require_challenge)) ;;
     match esc with
     | None => ret Continue
     | Some rc => challenge_gate settings sess env cid rc
     end).
Proof.
  intros Ns Nb Nc.
  apply keeps_key_bind; [apply keeps_key_exists|intros rq].
  apply keeps_key_bind.
  - destruct (5 <? cnt); [now apply keeps_key_escalate|apply keeps_key_ret].
  - intros [rc|]; [now apply keeps_key_challenge_gate|apply keeps_key_ret].
Qed.

Lemma keeps_key_throttle k settings sess env cid :
  count_key sess <> k -> strikes_key sess <> k ->
  block_key sess <> k -> challenge_key sess <> k ->
  keeps_key k (throttle settings sess env cid).
Proof.
  intros Nk Ns Nb Nc. unfold throttle.
  apply keeps_key_bind; [apply keeps_key_ttl|intros ttl].
  destruct (negb (ttl =? 0) && (0 <? ttl)); [apply keeps_key_reply|].
  apply keeps_key_bind; [now apply keeps_key_incr|intros cnt].
  apply keeps_key_bind; [now apply keeps_key_first_expire|intros _].
  now apply keeps_key_after_count.
Qed.

Lemma sender_key_user_inj sessA sessB uA uB :
  user sessA = Some uA -> user sessB = Some uB ->
  sender_key sessA = sender_key sessB -> id uA = id uB.
Proof.
  unfold sender_key. intros -> -> H.
  apply (inj (String.app "user:")) in H. now apply (inj pretty) in H.
Qed.

Section Isolation.
Variable int_of_str : string -> option Z.
Variable settings : Settings.
Variable sess : Session.

Local Abbreviation step := (writer_step int_of_str settings sess).
Local Abbreviation run := (writer int_of_str settings sess).
Local Abbreviation bk := (block_key sess).
Local Abbreviation ck := (count_key sess).
Local Abbreviation sk := (strikes_key sess).
Local Abbreviation chk := (challenge_key sess).

(** A key that is none of the sender's four keys survives an iteration. *)
Lemma writer_step_keeps_key k env f w :
  ck <> k -> sk <> k -> bk <> k -> chk <> k ->
  kv (snd (step env f w)) !! k = kv w !! k.
Proof.
  intros Nk Ns Nb Nc. rewrite writer_step_unfold. cbv zeta.
  pose proof (rebind_kv f w) as Rk.
  destruct (is_empty _); [cbn [snd]; now rewrite Rk|].
  destruct (no_display_name sess); [cbn [snd]; now rewrite Rk|].
  destruct (2000 <? _).
  { rewrite (keeps_key_swallow k _ (keeps_key_send k env _)). now rewrite Rk. }
  pose proof (keeps_key_throttle k settings sess env
                (client_id (parse int_of_str env f)) Nk Ns Nb Nc (rebind f w)) as T.
  destruct (throttle _ _ _ _ _) as [[[|]|] w1]; cbn [fst snd] in T |- *;
    rewrite ?publish_event_kv, T, Rk; reflexivity.
Qed.

Lemma writer_keeps_key k inputs : forall w,
  ck <> k -> sk <> k -> bk <> k -> chk <> k ->
  kv (snd (run inputs w)) !! k = kv w !! k.
Proof.
  induction inputs as [|[env f] rest IH]; intros w Nk Ns Nb Nc; [reflexivity|].
  cbn [writer].
  pose proof (writer_step_keeps_key k env f w Nk Ns Nb Nc) as S.
  destruct (step env f w) as [[[]|] w1]; cbn [fst snd] in S |- *.
  - rewrite IH by assumption. exact S.
  - exact S.
Qed.


(** X8: rate limiting is per user.  Whatever frames a connection
    delivers and whatever fails, its loop leaves the count, strikes,
    challenge and block keys of every user with a different id as they
    were. *)
Theorem senders_are_isolated
    (other : Session) (u u' : User) (inputs : list (Env * Frame)) (w : World) :
  user sess = Some u ->
  user other = Some u' ->
  id u <> id u' ->
  let w' := snd (run inputs w) in
  kv w' !! count_key other = kv w !! count_key other
  /\ kv w' !! strikes_key other = kv w !! strikes_key other
  /\ kv w' !! challenge_key other = kv w !! challenge_key other
  /\ kv w' !! block_key other = kv w !! block_key other.
Proof.
  intros Hu Hu' Hid. cbv zeta.
  assert (Hk : sender_key sess <> sender_key other).
  { intros E. apply Hid. exact (sender_key_user_inj _ _ _ _ Hu Hu' E). }
  assert (Same : forall p : string,
             p +:+ sender_key sess <> p +:+ sender_key other).
  { intros p E. apply Hk. exact (inj (String.app p) _ _ E). }
  repeat split; apply writer_keeps_key;
    unfold count_key, strikes_key, block_key, challenge_key;
    first [apply Same | distinct_prefix].
Qed.

End Isolation.

(** ** The history frame at connect time (lines 50-63) *)

Lemma omap_rev {A B} (f : A -> option B) (l : list A) :
  omap f (rev l) = rev (omap f l).
Proof.
  induction l as [|a l IH]; [reflexivity|].
  cbn [rev]. rewrite omap_app, IH. cbn [omap list_omap].
  destruct (f a); [reflexivity|]. cbn [rev]. now rewrite app_nil_r.
Qed.

Lemma length_omap_le {A B} (f : A -> option B) (l : list A) :
  (length (omap f l) <= length l)%nat.
Proof.
  induction l as [|a l IH]; [reflexivity|]. cbn [omap list_omap length].
  destruct (f a); cbn [length]; lia.
Qed.

Lemma omap_all {A} (f : A -> option A) (l : list A) :
  (forall a, f a = Some a) -> omap f l = l.
Proof.
  intros H. induction l as [|a l IH]; [reflexivity|].
  cbn [omap list_omap]. now rewrite H, IH.
Qed.

Section Replay.
Variable json_loads : ChannelMessage -> option ChannelMessage.
Variable int_of_str : string -> option Z.
Variable settings : Settings.
Variable sess : Session.

Local Abbreviation run := (writer int_of_str settings sess).

(** X9: whatever the history list holds and whatever decodes, a
    [history] frame is sent only when both [LRANGE] and [send_text]
    succeed; it then has at most 50 items, which are the entries that
    decode among the 50 newest, in the order oldest first (skipping an
    entry does not disturb the order of the others). *)
Theorem history_frame_bounded_oldest_first
    (lrange_fails send_fails : bool) (w : World) (items : list ChannelMessage) :
  send_history json_loads lrange_fails send_fails w = Some items ->
  lrange_fails = false
  /\ send_fails = false
  /\ (length items <= 50)%nat
  /\ items = rev (omap json_loads (take 50 (history w))).
Proof.
  unfold send_history, history_items, redis_lrange.
  destruct lrange_fails; [discriminate|].
  destruct send_fails; [discriminate|]. cbv zeta. intros [= <-].
  fold (history w). rewrite omap_rev. repeat split.
  rewrite length_rev.
  pose proof (length_omap_le json_loads (take 50 (history w))) as L.
  rewrite length_take in L. lia.
Qed.

(** X10: the writer and the connect-time replay fit together.  When the
    history commands are answered and stored entries decode to
    themselves, a client that connects after a run of the loop gets, in
    its [history] frame, the 50 newest of the messages published by the
    run followed in age by the older entries, oldest first. *)
Theorem history_frame_after_run (inputs : list (Env * Frame)) (w : World) :
  (forall e, json_loads e = Some e) ->
  history_store_up inputs ->
  exists new,
    channel (snd (run inputs w)) = on_channel new ++ channel w
    /\ send_history json_loads false false (snd (run inputs w))
       = Some (rev (take 50 (new ++ history w))).
Proof.
  intros Hrt Hup.
  destruct (writer_log int_of_str settings sess inputs w) as (new & Hc & _ & _ & Hh).
  exists new. split; [exact Hc|].
  unfold send_history, history_items, redis_lrange. cbv zeta.
  fold (history (snd (run inputs w))). rewrite (omap_all _ _ Hrt).
  do 2 f_equal.
  destruct (Hh Hup) as [H|[-> H]]; rewrite H.
  - rewrite take_take. f_equal.
  - reflexivity.
Qed.

End Replay.

(** X9, witness. *)
Lemma history_frame_bounded_oldest_first_witness :
  (length (rev (take 50 (history (after_burst 3 100)))) <= 50)%nat.
Proof.
  destruct (history_frame_bounded_oldest_first Some false false
              (after_burst 3 100)
              (rev (take 50 (history (after_burst 3 100)))))
    as (_ & _ & L & _).
  - vm_compute. reflexivity.
  - exact L.
Defined.

(** X10, witness. *)
Lemma history_frame_after_run_witness :
  exists new,
    channel (snd (writer int_of_digits default_settings alice (burst 3 100)
                    empty_world))
    = on_channel new ++ channel empty_world
    /\ send_history Some false false
         (snd (writer int_of_digits default_settings alice (burst 3 100)
                 empty_world))
       = Some (rev (take 50 (new ++ history empty_world))).
Proof.
  apply (history_frame_after_run Some int_of_digits default_settings alice
           (burst 3 100) empty_world).
  - reflexivity.
  - apply Forall_burst. split; reflexivity.
Defined.

(** ** The outbound relay (lines 65-78) *)

(** X11: the reader forwards texts of items of type [message] only,
    unchanged and in the order of the feed: what it sends is always a
    prefix of the texts the feed offers; and when every [message] item
    carries a text it is exactly the first [sendable] of them, so with
    a socket that stays up nothing is lost, skipped or duplicated. *)
Theorem reader_forwards_messages_in_order
    (feed : list (option PubSubMessage)) (sendable : nat) :
  reader feed sendable `prefix_of` forwardable feed
  /\ (texts_only feed -> reader feed sendable = take sendable (forwardable feed)).
Proof.
  revert sendable. induction feed as [|[message|] rest IH]; intros n.
  - split; [apply prefix_nil|]. intros _. now destruct n.
  - destruct (IH n) as [P E]. unfold forwardable in *. cbn [reader omap list_omap].
    destruct (String.eqb (ps_type message) "message") eqn:T; cbn [negb].
    + destruct (ps_data message) as [data|] eqn:D.
      * destruct n as [|n]; [split; [apply prefix_nil|reflexivity]|].
        destruct (IH n) as [P' E']. split; [now apply prefix_cons|].
        intros H. inversion H as [|? ? _ Hrest]; subst.
        cbn [take]. now rewrite (E' Hrest).
      * split; [apply prefix_nil|]. intros H.
        inversion H as [|? ? Hm _]; subst. now contradiction (Hm T).
    + split; [exact P|]. intros H. inversion H as [|? ? _ Hrest]; subst.
      now apply E.
  - destruct (IH n) as [P E]. unfold forwardable in *. cbn [reader omap list_omap].
    split; [exact P|]. intros H. inversion H as [|? ? _ Hrest]; subst.
    now apply E.
Qed.

Lemma reader_all_messages (l : list ChannelMessage) (n : nat) :
  (length l <= n)%nat ->
  reader (map (fun e => Some {| ps_type := "message"; ps_data := Some e |}) l) n
  = l.
Proof.
  revert n. induction l as [|e l IH]; intros n L; [reflexivity|].
  cbn [length] in L. destruct n as [|n]; [lia|].
  cbn [map reader ps_type ps_data String.eqb Ascii.eqb Bool.eqb andb negb].
  rewrite IH by lia. reflexivity.
Qed.

Lemma listen_on_channel (new : list ChannelMessage) :
  listen (on_channel new)
  = Some {| ps_type := "subscribe"; ps_data := None |}
    :: map (fun e => Some {| ps_type := "message"; ps_data := Some e |}) (rev new).
Proof.
  unfold listen, on_channel. f_equal.
  assert (F : filter (fun c : string * ChannelMessage => fst c = CHANNEL_NAME)
                (map (pair CHANNEL_NAME) new) = map (pair CHANNEL_NAME) new).
  { induction new as [|e new IH]; [reflexivity|].
    cbn [map]. rewrite filter_cons_True by reflexivity. now rewrite IH. }
  rewrite F, <- map_rev, map_map. reflexivity.
Qed.

Section Delivery.
Variable int_of_str : string -> option Z.
Variable settings : Settings.
Variable sess : Session.

Local Abbreviation run := (writer int_of_str settings sess).

(** X12: writer, channel and reader fit together.  Whatever the frames
    and the failures, a connection that subscribed before a run of the
    loop, and whose socket takes as many frames as the run published,
    forwards every message of the run exactly once, in publish order
    and unchanged (same id, user, text, ts, avatar and client id); the
    confirmation of its own subscription is not forwarded. *)
Theorem published_messages_are_delivered
    (inputs : list (Env * Frame)) (w : World) (sendable : nat) :
  exists new,
    channel (snd (run inputs w)) = on_channel new ++ channel w
    /\ ((length new <= sendable)%nat ->
        reader (listen (on_channel new)) sendable = rev new).
Proof.
  destruct (writer_log int_of_str settings sess inputs w) as (new & Hc & _).
  exists new. split; [exact Hc|]. intros L.
  rewrite listen_on_channel. cbn [reader ps_type String.eqb Ascii.eqb Bool.eqb andb negb].
  apply reader_all_messages. now rewrite length_rev.
Qed.

End Delivery.

(** X11, witness. *)
Lemma reader_forwards_messages_in_order_witness :
  let e := event_of int_of_digits alice (env_at 100, text_frame "hi") in
  let feed := [Some {| ps_type := "subscribe"; ps_data := None |}; None;
               Some {| ps_type := "message"; ps_data := Some e |};
               Some {| ps_type := "message"; ps_data := Some e |}] in
  reader feed 1 = take 1 (forwardable feed).
Proof.
  intros e feed.
  apply (proj2 (reader_forwards_messages_in_order feed 1)).
  repeat constructor; cbn; intros; discriminate.
Defined.

(** ** Who may send ([get_user_from_websocket], [chat_ws] lines 42-44) *)

Lemma filter_by_id_unique (n : Z) (l : list User) :
  NoDup (map id l) -> (length (filter (fun u => id u = n) l) <= 1)%nat.
Proof.
  induction l as [|u l IH]; intros H; [cbn; lia|].
  cbn [map] in H. apply NoDup_cons in H as [Hn Hl].
  destruct (decide (id u = n)) as [E|E].
  - rewrite filter_cons_True by exact E. cbn [length].
    assert (Z : filter (fun v => id v = n) l = []).
    { destruct (filter (fun v => id v = n) l) as [|v r] eqn:F; [reflexivity|].
      exfalso. apply Hn.
      assert (Hv : v ∈ filter (fun v => id v = n) l) by (rewrite F; left).
      apply list_elem_of_filter in Hv as [Hid Hin].
      rewrite E, <- Hid. apply list_elem_of_fmap. now exists v. }
    rewrite Z. reflexivity.
  - rewrite filter_cons_False by exact E. now apply IH.
Qed.

(** A user is returned only for a cookie whose token decodes to the id
    of that user, a row of the table. *)
Lemma get_user_sound int_of_str cookie_name deps cookies u :
  get_user_from_websocket int_of_str cookie_name deps cookies = Ret (Some u) ->
  exists token payload,
    cookies !! cookie_name = Some token
    /\ is_empty token = false
    /\ decode_access_token deps token = Some payload
    /\ py_int int_of_str (dict_get payload "sub") = Some (id u)
    /\ u ∈ users deps.
Proof.
  unfold get_user_from_websocket.
  destruct (cookies !! cookie_name) as [token|]; [|discriminate].
  destruct (is_empty token) eqn:Et; [discriminate|].
  destruct (decode_access_token deps token) as [payload|] eqn:Ed; [|discriminate].
  destruct (decide (payload = ∅)) as [Hemp|Hne]; [discriminate|]. cbv zeta.
  destruct (negb (truthy (dict_get payload "sub"))); [discriminate|].
  destruct (py_int int_of_str (dict_get payload "sub")) as [n|] eqn:Ei;
    [|discriminate].
  intros H. exists token, payload. repeat split; try assumption.
  - destruct (filter (fun v => id v = n) (users deps)) as [|v [|v' r]] eqn:F;
      cbn [scalar_one_or_none] in H; try discriminate.
    injection H as ->.
    assert (Hu : u ∈ filter (fun v => id v = n) (users deps)) by (rewrite F; left).
    apply list_elem_of_filter in Hu as [Hid _]. now rewrite Hid.
  - destruct (filter (fun v => id v = n) (users deps)) as [|v [|v' r]] eqn:F;
      cbn [scalar_one_or_none] in H; try discriminate.
    injection H as ->.
    assert (Hu : u ∈ filter (fun v => id v = n) (users deps)) by (rewrite F; left).
    now apply list_elem_of_filter in Hu as [_ Hin].
Qed.

(** X13: [get_user_from_websocket] returns a user only when the cookie
    is present and not empty, its token is accepted by
    [decode_access_token], the [sub] of the payload converts to an
    integer, and the user returned is a row of the table with that id.
    With ids unique in the table, as for a primary key, the lookup
    never raises. *)
Theorem get_user_requires_valid_token
    (int_of_str : string -> option Z) (cookie_name : string)
    (deps : AuthDeps) (cookies : gmap string string) :
  (forall u,
     get_user_from_websocket int_of_str cookie_name deps cookies = Ret (Some u) ->
     exists token payload,
       cookies !! cookie_name = Some token
       /\ is_empty token = false
       /\ decode_access_token deps token = Some payload
       /\ py_int int_of_str (dict_get payload "sub") = Some (id u)
       /\ u ∈ users deps)
  /\ (NoDup (map id (users deps)) ->
      get_user_from_websocket int_of_str cookie_name deps cookies <> Exc).
Proof.
  split; [intros u; apply get_user_sound|].
  intros Hnd. unfold get_user_from_websocket.
  destruct (cookies !! cookie_name) as [token|]; [|discriminate].
  destruct (is_empty token); [discriminate|].
  destruct (decode_access_token deps token) as [payload|]; [|discriminate].
  destruct (decide (payload = ∅)) as [Hemp|Hne]; [discriminate|]. cbv zeta.
  destruct (negb (truthy (dict_get payload "sub"))); [discriminate|].
  destruct (py_int int_of_str (dict_get payload "sub")) as [n|]; [|discriminate].
  pose proof (filter_by_id_unique n (users deps) Hnd) as L.
  destruct (filter (fun v => id v = n) (users deps)) as [|v [|v' r]];
    cbn [scalar_one_or_none length] in *; try discriminate. lia.
Qed.

(** X14: nobody publishes without a valid token.  When a run of the
    loop, in the session opened at connect time, changes the channel,
    then the connection's cookie held a token that
    [decode_access_token] accepted, whose [sub] is the id of the
    session's user, a row of the users table. *)
Theorem publishing_requires_a_valid_token
    (int_of_str : string -> option Z) (settings : Settings)
    (cookie_name : string) (deps : AuthDeps) (cookies : gmap string string)
    (host : option string) (sess : Session)
    (inputs : list (Env * Frame)) (w : World) :
  open_session int_of_str cookie_name deps cookies host = Some sess ->
  channel (snd (writer int_of_str settings sess inputs w)) <> channel w ->
  exists token payload u,
    user sess = Some u
    /\ cookies !! cookie_name = Some token
    /\ decode_access_token deps token = Some payload
    /\ py_int int_of_str (dict_get payload "sub") = Some (id u)
    /\ u ∈ users deps.
Proof.
  unfold open_session. intros Ho Hch.
  destruct (get_user_from_websocket int_of_str cookie_name deps cookies)
    as [[u|]|] eqn:G; try discriminate; injection Ho as <-.
  - destruct (get_user_sound _ _ _ _ _ G) as (token & payload & H1 & _ & H3 & H4 & H5).
    exists token, payload, u. repeat split; assumption.
  - exfalso. apply Hch.
    exact (no_display_name_keeps_channel int_of_str settings
             {| user := None; client_host := host |} inputs w eq_refl).
Qed.

(** X13, witness. *)
Lemma get_user_requires_valid_token_witness :
  get_user_from_websocket int_of_digits "access_token" demo_deps
    {[ "access_token" := "good" ]} <> Exc.
Proof.
  apply (proj2 (get_user_requires_valid_token int_of_digits "access_token"
                  demo_deps {[ "access_token" := "good" ]})).
  cbn [map users demo_deps id]. apply NoDup_cons. split.
  - intros H. apply list_elem_of_singleton in H. discriminate.
  - apply NoDup_singleton.
Defined.

(** X14, witness. *)
Lemma publishing_requires_a_valid_token_witness :
  exists token payload u,
    user alice = Some u
    /\ ({[ "access_token" := "good" ]} : gmap string string) !! "access_token"
       = Some token
    /\ decode_access_token demo_deps token = Some payload
    /\ py_int int_of_digits (dict_get payload "sub") = Some (id u)
    /\ u ∈ users demo_deps.
Proof.
  apply (publishing_requires_a_valid_token int_of_digits default_settings
           "access_token" demo_deps {[ "access_token" := "good" ]}
           (Some "10.0.0.5") alice (burst 1 100) empty_world).
  - vm_compute. reflexivity.
  - vm_compute. discriminate.
Defined.

(** ** The shared Redis client ([get_redis], [close_redis]) *)

Lemma client_calls_gets calls : forall st c,
  forallb is_get calls = true ->
  _redis st = Some c ->
  client_calls calls st = (repeat c (length calls), st).
Proof.
  induction calls as [|[|fails] rest IH]; intros st c H E; [reflexivity| |discriminate].
  cbn [forallb is_get andb] in H. cbn [client_calls length repeat].
  unfold get_redis. rewrite E. now rewrite (IH st c H E).
Qed.

(** X15: there is one Redis client per process.  Any number of
    [get_redis] calls in a row return the same client and make at most
    one (none when [_redis] is already set); after a [close_redis] that
    returned, the next [get_redis] makes a client that was never
    returned before; when [aclose] raises, [_redis] is not reset and
    the next [get_redis] still returns the old client. *)
Theorem redis_client_is_shared :
  (forall calls st,
     forallb is_get calls = true ->
     exists client,
       fst (client_calls calls st) = repeat client (length calls)
       /\ (made (snd (client_calls calls st)) <= S (made st))%nat
       /\ (forall old, _redis st = Some old ->
           client = old /\ snd (client_calls calls st) = st))
  /\ (forall st old,
        client_state_ok st -> _redis st = Some old ->
        fst (close_redis false st) = Ret tt
        /\ (forall earlier, (earlier < made st)%nat ->
            fst (get_redis (snd (close_redis false st))) <> earlier)
        /\ fst (close_redis true st) = Exc
        /\ fst (get_redis (snd (close_redis true st))) = old).
Proof.
  split.
  - intros calls st H. destruct (_redis st) as [c|] eqn:E.
    + exists c. rewrite (client_calls_gets calls st c H E). cbn [fst snd].
      split; [reflexivity|]. split; [lia|].
      intros old [= <-]. split; reflexivity.
    + destruct calls as [|[|fails] rest]; [| |discriminate].
      * exists 0%nat. cbn [client_calls fst snd length repeat].
        split; [reflexivity|]. split; [lia|]. intros old Hold. discriminate.
      * cbn [forallb is_get andb] in H. exists (made st).
        assert (X : client_calls (GetRedis :: rest) st
                    = (repeat (made st) (S (length rest)),
                       {| _redis := Some (made st); made := S (made st) |})).
        { cbn [client_calls]. unfold get_redis. rewrite E.
          now rewrite (client_calls_gets rest
                         {| _redis := Some (made st); made := S (made st) |}
                         (made st) H eq_refl). }
        rewrite X. cbn [fst snd made length].
        split; [reflexivity|]. split; [lia|]. intros old Hold. discriminate.
  - intros st old Hok E. unfold client_state_ok in Hok. rewrite E in Hok.
    unfold close_redis. rewrite E. cbn [fst snd].
    split; [reflexivity|]. split; [|split; [reflexivity|]].
    + intros earlier L. unfold get_redis. cbn [_redis made fst]. lia.
    + unfold get_redis. now rewrite E.
Qed.

(** ** The chat page and the messages ([chat.py], [middleware/auth.py]) *)

Lemma substring_all s : forall n,
  (String.length s <= n)%nat -> substring 0 n s = s.
Proof.
  induction s as [|c s IH]; intros [|n] L; cbn [substring String.length] in *;
    try reflexivity; try lia.
  rewrite IH by lia. reflexivity.
Qed.

(** X16: what a user sees of themself on the chat page is what the
    others see on their messages.  The avatar attached to an event is
    the URL the middleware computes for the page from the same file
    state, and the [user] field of the event is the first 32 characters
    of the page's [me_name], hence [me_name] itself when that has at
    most 32 characters. *)
Theorem chat_page_matches_messages (sess : Session) (env : Env) (p : Parsed) :
  ev_avatar (make_event sess env p) = middleware_avatar_url env (user sess)
  /\ forall me_name,
       chat_page_me_name (user sess) = Some me_name ->
       ev_user (make_event sess env p) = Some (substring 0 32 me_name)
       /\ (len me_name <= 32 -> ev_user (make_event sess env p) = Some me_name).
Proof.
  unfold make_event, middleware_avatar_url, _avatar_url, display_name,
    chat_page_me_name.
  cbn [ev_avatar ev_user]. destruct (user sess) as [u|]; cbn [option_map].
  - split; [reflexivity|]. intros me_name [= <-]. split; [reflexivity|].
    intros L. rewrite substring_all; [reflexivity|]. unfold len in L. lia.
  - split; [reflexivity|]. intros me_name H. discriminate.
Qed.

(** ** The further properties on concrete runs *)

(** X4, witness: the seventh plain frame of a burst. *)
Lemma pending_challenge_is_enforced_witness :
  let r := writer_step int_of_digits default_settings alice (env_at 100)
             (text_frame "hi") (after_burst 6 100) in
  fst r = Ret tt /\ channel (snd r) = channel (after_burst 6 100).
Proof.
  destruct (pending_challenge_is_enforced int_of_digits default_settings alice
              (env_at 100) (text_frame "hi") {[ "text" := PStr "hi" ]}
              (after_burst 6 100)) as (R & C & _).
  - apply sound_hi.
  - reflexivity.
  - vm_compute. reflexivity.
  - vm_compute. reflexivity.
  - split; assumption.
Defined.

(** The payload the loop holds can be an earlier frame's: a frame with
    a token followed in the same second by six frames that are no JSON.
    The sixth and seventh frames are violations and set the challenge
    key, but the token of the first frame is still in [payload] and
    passes, so all seven are published and no error frame is sent. *)
Lemma stale_token_is_reused :
  let inputs := (env_at 100, token_frame "tok")
                  :: repeat (env_at 100, plain_frame "hi") 6 in
  let r := writer int_of_digits default_settings alice inputs empty_world in
  fst r = true
  /\ length (channel (snd r)) = 7%nat
  /\ outbox (snd r) = []
  /\ kv (snd r) !! count_key alice = Some (7, Some 110)
  /\ kv (snd r) !! strikes_key alice = Some (2, Some 220)
  /\ kv (snd r) !! challenge_key alice = None.
Proof. vm_compute. repeat split; reflexivity. Qed.

(** X5, witness: a second connection of a challenged user sends a frame
    that is no JSON. *)
Lemma non_object_frame_skips_challenge_witness :
  let r := writer_step int_of_digits default_settings bob (env_at 100)
             (plain_frame "yo") bob_after_six in
  exists_of 100 (challenge_key bob) (kv bob_after_six) = 1
  /\ fst r = Ret tt
  /\ outbox (snd r) = outbox bob_after_six.
Proof.
  split; [vm_compute; reflexivity|].
  destruct (non_object_frame_skips_challenge int_of_digits default_settings bob
              (env_at 100) (plain_frame "yo") bob_after_six) as (R & _ & O).
  - split; [vm_compute; reflexivity|apply fault_free_env_at].
  - intros d. discriminate.
  - vm_compute. reflexivity.
  - right. vm_compute. reflexivity.
  - split; assumption.
Defined.

(** X6, witness: no secret configured, any token passes. *)
Lemma challenge_passes_iff_witness :
  fst (challenge_gate default_settings alice (env_at 100) PNone 1
         (set_payload (Some (LDict {[ "cf" := PStr "tok" ]})) empty_world))
  = Ret Proceed.
Proof.
  rewrite (challenge_passes_iff default_settings alice (env_at 100) PNone 1
             {[ "cf" := PStr "tok" ]}
             (set_payload (Some (LDict {[ "cf" := PStr "tok" ]})) empty_world)).
  - vm_compute. reflexivity.
  - discriminate.
  - reflexivity.
Defined.


(** X8, witness: a burst of alice that gets her blocked leaves the keys
    of bob alone. *)
Lemma senders_are_isolated_witness :
  let w' := snd (writer int_of_digits default_settings alice (burst 8 100)
                   bob_after_six) in
  kv w' !! count_key bob = kv bob_after_six !! count_key bob
  /\ kv w' !! strikes_key bob = kv bob_after_six !! strikes_key bob
  /\ kv w' !! challenge_key bob = kv bob_after_six !! challenge_key bob
  /\ kv w' !! block_key bob = kv bob_after_six !! block_key bob.
Proof.
  apply (senders_are_isolated int_of_digits default_settings alice bob
           {| id := 7; email := "alice@example.org"; name := Some "alice" |}
           {| id := 8; email := "bob@example.org"; name := None |}
           (burst 8 100) bob_after_six).
  - reflexivity.
  - reflexivity.
  - cbn [id]. lia.
Defined.

(** X12, witness. *)
Lemma published_messages_are_delivered_witness :
  exists new,
    channel (snd (writer int_of_digits default_settings alice (burst 3 100)
                    empty_world))
    = on_channel new ++ channel empty_world
    /\ ((length new <= 5)%nat ->
        reader (listen (on_channel new)) 5 = rev new).
Proof.
  apply (published_messages_are_delivered int_of_digits default_settings alice
           (burst 3 100) empty_world 5).
Defined.

(** X15, witness: start-up, three connections, shutdown, start-up. *)
Lemma redis_client_is_shared_witness :
  fst (client_calls [GetRedis; GetRedis; GetRedis; GetRedis]
         {| _redis := None; made := 0 |})
  = [0; 0; 0; 0]%nat
  /\ fst (get_redis (snd (close_redis false {| _redis := Some 0%nat; made := 1 |})))
     <> 0%nat.
Proof.
  destruct redis_client_is_shared as [H1 H2]. split.
  - destruct (H1 [GetRedis; GetRedis; GetRedis; GetRedis]
                {| _redis := None; made := 0 |} eq_refl) as (c & E & _).
    rewrite E. vm_compute in E. injection E as <-. reflexivity.
  - destruct (H2 {| _redis := Some 0%nat; made := 1 |} 0%nat) as (_ & F & _).
    + cbn. lia.
    + reflexivity.
    + apply F. cbn. lia.
Defined.

(** ** The strike window (lines 135-138) *)

Section StrikeWindow.
Variable int_of_str : string -> option Z.
Variable settings : Settings.
Variable sess : Session.

Local Abbreviation step := (writer_step int_of_str settings sess).
Local Abbreviation bk := (block_key sess).
Local Abbreviation ck := (count_key sess).
Local Abbreviation sk := (strikes_key sess).
Local Abbreviation chk := (challenge_key sess).



End StrikeWindow.

